(** * The real-time relay of the messenger server (websocket.js)

    A shallow embedding of [setupWebSocket]: the connection registry
    ([connections], a JavaScript [Map]), the per-connection [message] and
    [close] handlers, [broadcastStatus], and the four store helpers of
    database.js the relay calls ([updateUserStatus], [createMessage],
    [getConversationParticipants], [getUserById]).

    Beside the relay, the file embeds three pieces of database.js and of
    the HTTP routes that use them: [deleteUser], registration and login
    (module [Accounts]), and channels (module [Channels]).

    Modelling choices.
    - A world holds the registry, the transport's [readyState] of every
      socket, the [userId] variable of every connection's closure, the
      store's tables, and a trace of the effects performed so far, oldest
      first: registry writes, store calls, [console.error] and every call
      of [ws.send].  "A frame is sent to a connection" means that [send]
      was called on that socket with that frame.
    - [send] returns normally: the handlers pass no callback and the
      sockets were accepted by the server, so the transport reports a write
      that cannot be delivered asynchronously, never by raising. Where a
      property is about writes that fail, a [Transport] says which writes
      are lost.
    - A handler runs from its first statement to its last without another
      handler running in between; handlers of different connections
      interleave at handler granularity.
    - The store can refuse any statement: [sqlite_err] says which helper
      rejects and with which message; identifiers and timestamps of new
      messages come from [entropy].
    - Inbound frames are the typed view of the parsed JSON object:
      identities, conversation ids and contents are strings, [messageType]
      may be absent, and the payloads the relay only forwards are kept as
      opaque text. *)

From Stdlib Require Import List String Bool Arith Lia.
Import ListNotations.
Open Scope string_scope.
Open Scope list_scope.

(** ** Data *)

Definition UserId := string.
Definition Handle := nat.
Definition Payload := string.

(** [WebSocket.CONNECTING], [OPEN], [CLOSING], [CLOSED] are 0, 1, 2, 3. *)
Inductive ReadyState := CONNECTING | OPEN | CLOSING | CLOSED.

Definition isOpen (r : ReadyState) : bool :=
  match r with OPEN => true | _ => false end.

(** JavaScript truthiness of a string: only the empty string is falsy. *)
Definition truthy (s : string) : bool := negb (s =? "").

(** ** The registry: [const connections = new Map()] *)

Module JsMap.

(** Entries in insertion order, as [Map.prototype.forEach] visits them. *)
Definition t := list (UserId * Handle).

Fixpoint get (k : UserId) (m : t) : option Handle :=
  match m with
  | [] => None
  | (k', v) :: rest => if k' =? k then Some v else get k rest
  end.

(** [set] overwrites the value of an existing key where it stands and
    appends a new key at the end. *)
Fixpoint set (k : UserId) (v : Handle) (m : t) : t :=
  match m with
  | [] => [(k, v)]
  | (k', v') :: rest =>
      if k' =? k then (k', v) :: rest else (k', v') :: set k v rest
  end.

(** Keys are unique (see [JsMapFacts.NoDup_keys_set]), so [delete] meets
    at most one entry. *)
Fixpoint delete (k : UserId) (m : t) : t :=
  match m with
  | [] => []
  | (k', v') :: rest =>
      if k' =? k then delete k rest else (k', v') :: delete k rest
  end.

Definition keys (m : t) : list UserId := map fst m.

End JsMap.

(** ** The store (database.js) *)

Record UserRow := mkUser {
  user_id : string;
  username : string;
  email : string;
  avatar : option string;
  status : string
}.

(** The record [createMessage] resolves with. *)
Record MessageRecord := mkMessage {
  id : string;
  conversationId : string;
  senderId : string;
  content : string;
  type : string;
  createdAt : string
}.

Record Db := mkDb {
  users : list UserRow;
  conversation_participants : list (string * string);
  messages : list MessageRecord
}.

Inductive StoreOp :=
  OpUpdateUserStatus | OpCreateMessage | OpGetConversationParticipants | OpGetUserById.

(** ** Frames *)

(** What [JSON.parse(data)] gives, by [message.type]; [Unrecognised] stands
    for every value no [case] matches, a missing [type] included. *)
Inductive Frame :=
| Auth (userId : UserId)
| Message (conversationId senderId content : string) (messageType : option string)
| Typing (conversationId : string) (userId : UserId) (isTyping : Payload)
| CallOffer (targetUserId : UserId)
            (offer callerId callerName conversationId isVideo : Payload)
| CallAnswer (callerId : UserId) (answer answererId : Payload)
| IceCandidate (targetUserId : UserId) (candidate fromUserId : Payload)
| CallEnd (targetUserId : UserId) (fromUserId : Payload)
| CallReject (callerId : UserId) (rejecterId : Payload)
| Unrecognised (type : string).

(** The [data] of a [message] event: text [JSON.parse] rejects with a
    [SyntaxError], the text [null], or an object. *)
Inductive Data :=
| Malformed (syntaxError : string)
| JsonNull
| Json (message : Frame).

(** What the relay writes to a socket. *)
Inductive OutFrame :=
| auth_success
| new_message (message : MessageRecord) (sender_username : string)
| typing (conversationId : string) (userId : UserId) (isTyping : Payload)
| call_offer (offer callerId callerName conversationId isVideo : Payload)
| call_answer (answer answererId : Payload)
| ice_candidate (candidate fromUserId : Payload)
| call_ended (fromUserId : Payload)
| call_rejected (rejecterId : Payload)
| call_error (error : string)
| user_status (userId : UserId) (status : string)
| error (error : string).

(** ** Effects and the world *)

Inductive Event :=
| RegistrySet (u : UserId) (ws : Handle)
| RegistryDelete (u : UserId)
| StoreUpdateUserStatus (u : UserId) (status : string) (ok : bool)
| StoreCreateMessage (conversationId senderId content type : string) (ok : bool)
| StoreGetConversationParticipants (conversationId : string) (ok : bool)
| StoreGetUserById (u : string) (ok : bool)
| ConsoleError (msg : string)
| Send (ws : Handle) (f : OutFrame).

Record World := mkWorld {
  connections : JsMap.t;
  readyState : Handle -> ReadyState;
  userId : Handle -> option UserId;
  db : Db;
  sqlite_err : StoreOp -> option string;
  entropy : nat -> string * string;
  tick : nat;
  trace : list Event
}.

Definition log (e : Event) (w : World) : World :=
  mkWorld (connections w) (readyState w) (userId w) (db w)
          (sqlite_err w) (entropy w) (tick w) (trace w ++ [e]).

Definition with_connections (m : JsMap.t) (w : World) : World :=
  mkWorld m (readyState w) (userId w) (db w)
          (sqlite_err w) (entropy w) (tick w) (trace w).

Definition with_db (d : Db) (w : World) : World :=
  mkWorld (connections w) (readyState w) (userId w) d
          (sqlite_err w) (entropy w) (tick w) (trace w).

Definition with_tick (n : nat) (w : World) : World :=
  mkWorld (connections w) (readyState w) (userId w) (db w)
          (sqlite_err w) (entropy w) n (trace w).

Definition with_userId (ws : Handle) (u : option UserId) (w : World) : World :=
  mkWorld (connections w) (readyState w)
          (fun h => if h =? ws then u else userId w h)%nat (db w)
          (sqlite_err w) (entropy w) (tick w) (trace w).

Definition with_readyState (ws : Handle) (r : ReadyState) (w : World) : World :=
  mkWorld (connections w)
          (fun h => if h =? ws then r else readyState w h)%nat (userId w) (db w)
          (sqlite_err w) (entropy w) (tick w) (trace w).

(** ** A state and exception monad for handler bodies

    A thrown exception (or a rejected awaited promise) keeps the effects
    already performed: nothing is rolled back. *)

Inductive Outcome (A : Type) :=
| Returned (a : A)
| Thrown (msg : string).
Arguments Returned {A} a.
Arguments Thrown {A} msg.

Definition M (A : Type) := World -> Outcome A * World.

Definition ret {A} (a : A) : M A := fun w => (Returned a, w).

Definition throw {A} (msg : string) : M A := fun w => (Thrown msg, w).

Definition bind {A B} (c : M A) (k : A -> M B) : M B :=
  fun w => match c w with
           | (Returned a, w') => k a w'
           | (Thrown msg, w') => (Thrown msg, w')
           end.

Notation "x <- c ;; k" := (bind c (fun x => k))
  (at level 61, c at next level, right associativity).
Notation "c ;; k" := (bind c (fun _ => k))
  (at level 61, right associativity).

Definition emit (e : Event) : M unit := fun w => (Returned tt, log e w).

(** [ws.send(JSON.stringify(f))] *)
Definition send (ws : Handle) (f : OutFrame) : M unit := emit (Send ws f).

(** [connections.get(u)] followed by the test
    [ws && ws.readyState === WebSocket.OPEN]: the socket when it passes. *)
Definition openSocket (u : UserId) (w : World) : option Handle :=
  match JsMap.get u (connections w) with
  | Some ws => if isOpen (readyState w ws) then Some ws else None
  | None => None
  end.

(** ** dbHelpers *)

Definition set_status (u : string) (s : string) (r : UserRow) : UserRow :=
  if user_id r =? u then mkUser (user_id r) (username r) (email r) (avatar r) s
  else r.

(** [UPDATE users SET status = ? WHERE id = ?] *)
Definition updateUserStatus (u : UserId) (s : string) : M unit :=
  fun w =>
    match sqlite_err w OpUpdateUserStatus with
    | Some err => (Thrown err, log (StoreUpdateUserStatus u s false) w)
    | None =>
        let d := db w in
        let d' := mkDb (map (set_status u s) (users d))
                       (conversation_participants d) (messages d) in
        (Returned tt, log (StoreUpdateUserStatus u s true) (with_db d' w))
    end.

(** [INSERT INTO messages ...] with a fresh [uuidv4()] and
    [new Date().toISOString()]. *)
Definition createMessage (conv sender text ty : string) : M MessageRecord :=
  fun w =>
    match sqlite_err w OpCreateMessage with
    | Some err => (Thrown err, log (StoreCreateMessage conv sender text ty false) w)
    | None =>
        let '(uuid, date) := entropy w (tick w) in
        let r := mkMessage uuid conv sender text ty date in
        let d := db w in
        let d' := mkDb (users d) (conversation_participants d) (messages d ++ [r]) in
        (Returned r,
         log (StoreCreateMessage conv sender text ty true)
             (with_tick (S (tick w)) (with_db d' w)))
    end.

(** [SELECT user_id FROM conversation_participants WHERE conversation_id = ?] *)
Definition participants_of (conv : string) (d : Db) : list UserId :=
  map snd (filter (fun row => fst row =? conv) (conversation_participants d)).

Definition getConversationParticipants (conv : string) : M (list UserId) :=
  fun w =>
    match sqlite_err w OpGetConversationParticipants with
    | Some err => (Thrown err, log (StoreGetConversationParticipants conv false) w)
    | None => (Returned (participants_of conv (db w)),
               log (StoreGetConversationParticipants conv true) w)
    end.

(** [SELECT ... FROM users WHERE id = ?] through [db.get]: the first row,
    or [undefined] when there is none. *)
Definition user_by_id (u : string) (d : Db) : option UserRow :=
  find (fun r => user_id r =? u) (users d).

Definition getUserById (u : string) : M (option UserRow) :=
  fun w =>
    match sqlite_err w OpGetUserById with
    | Some err => (Thrown err, log (StoreGetUserById u false) w)
    | None => (Returned (user_by_id u (db w)), log (StoreGetUserById u true) w)
    end.

(** ** setupWebSocket *)

Definition registry_set (u : UserId) (ws : Handle) : M unit :=
  fun w => (Returned tt,
            log (RegistrySet u ws) (with_connections (JsMap.set u ws (connections w)) w)).

Definition registry_delete (u : UserId) : M unit :=
  fun w => (Returned tt,
            log (RegistryDelete u) (with_connections (JsMap.delete u (connections w)) w)).

Definition assign_userId (ws : Handle) (u : UserId) : M unit :=
  fun w => (Returned tt, with_userId ws (Some u) w).

(** The body of [connections.forEach] in [broadcastStatus], entry by entry. *)
Fixpoint forEach_status (entries : JsMap.t) (u : UserId) (s : string) : M unit :=
  match entries with
  | [] => ret tt
  | (id, ws) :: rest =>
      fun w =>
        ((if negb (id =? u) && isOpen (readyState w ws)
          then send ws (user_status u s)
          else ret tt) ;;
         forEach_status rest u s) w
  end.

Definition broadcastStatus (u : UserId) (s : string) : M unit :=
  fun w => forEach_status (connections w) u s w.

(** [error.message] of the [TypeError]s the handler can raise. *)
Definition typeError_username : string :=
  "Cannot read properties of undefined (reading 'username')".
Definition typeError_type : string :=
  "Cannot read properties of null (reading 'type')".

(** [participants.forEach] of [case 'message']: [sender.username] is read
    while the frame for a participant with an open socket is built, before
    the [send]. *)
Fixpoint forEach_new_message (participants : list UserId)
         (newMessage : MessageRecord) (sender : option UserRow) : M unit :=
  match participants with
  | [] => ret tt
  | participantId :: rest =>
      fun w =>
        (match openSocket participantId w with
         | Some participantWs =>
             match sender with
             | Some row => send participantWs (new_message newMessage (username row))
             | None => throw typeError_username
             end
         | None => ret tt
         end ;;
         forEach_new_message rest newMessage sender) w
  end.

(** [typingParticipants.forEach] of [case 'typing']. *)
Fixpoint forEach_typing (participants : list UserId)
         (conv : string) (u : UserId) (isTyping : Payload) : M unit :=
  match participants with
  | [] => ret tt
  | participantId :: rest =>
      fun w =>
        ((if negb (participantId =? u)
          then match openSocket participantId w with
               | Some participantWs => send participantWs (typing conv u isTyping)
               | None => ret tt
               end
          else ret tt) ;;
         forEach_typing rest conv u isTyping) w
  end.

(** [message.messageType || 'text'] *)
Definition messageType_or_text (mt : option string) : string :=
  match mt with
  | Some t => if truthy t then t else "text"
  | None => "text"
  end.

(** A forward to one target that is dropped when the target is unreachable. *)
Definition forward (target : UserId) (f : OutFrame) : M unit :=
  fun w => match openSocket target w with
           | Some targetWs => send targetWs f w
           | None => ret tt w
           end.

(** The [switch (message.type)]. *)
Definition dispatch (ws : Handle) (message : Frame) : M unit :=
  match message with
  | Auth u =>
      assign_userId ws u ;;
      registry_set u ws ;;
      updateUserStatus u "online" ;;
      broadcastStatus u "online" ;;
      send ws auth_success
  | Message conv sender text mt =>
      newMessage <- createMessage conv sender text (messageType_or_text mt) ;;
      participants <- getConversationParticipants conv ;;
      senderRow <- getUserById sender ;;
      forEach_new_message participants newMessage senderRow
  | Typing conv u isTyping =>
      typingParticipants <- getConversationParticipants conv ;;
      forEach_typing typingParticipants conv u isTyping
  | CallOffer target offer callerId callerName conv isVideo =>
      fun w => match openSocket target w with
               | Some targetWs =>
                   send targetWs (call_offer offer callerId callerName conv isVideo) w
               | None => send ws (call_error "User is offline") w
               end
  | CallAnswer callerId answer answererId =>
      forward callerId (call_answer answer answererId)
  | IceCandidate target candidate fromUserId =>
      forward target (ice_candidate candidate fromUserId)
  | CallEnd target fromUserId =>
      forward target (call_ended fromUserId)
  | CallReject callerId rejecterId =>
      forward callerId (call_rejected rejecterId)
  | Unrecognised _ => ret tt
  end.

(** The [try] block of [ws.on('message')]. *)
Definition try_block (ws : Handle) (data : Data) : M unit :=
  match data with
  | Malformed syntaxError => throw syntaxError
  | JsonNull => throw typeError_type
  | Json message => dispatch ws message
  end.

(** [ws.on('message', async (data) => { try ... catch ... })] *)
Definition on_message (ws : Handle) (data : Data) (w : World) : World :=
  match try_block ws data w with
  | (Returned _, w') => w'
  | (Thrown msg, w') => snd ((emit (ConsoleError msg) ;; send ws (error msg)) w')
  end.

(** [ws.on('close', async () => ...)]: a rejection of the awaited store
    call ends the handler; nobody observes it. *)
Definition on_close (ws : Handle) (w : World) : World :=
  match userId w ws with
  | Some u =>
      if truthy u
      then snd ((registry_delete u ;;
                 updateUserStatus u "offline" ;;
                 broadcastStatus u "offline") w)
      else w
  | None => w
  end.

(** [ws.on('error', ...)] only logs. *)
Definition on_error (ws : Handle) (msg : string) (w : World) : World :=
  log (ConsoleError msg) w.

(** [wss.on('connection', (ws) => { let userId = null; ... })] on a socket
    the transport has just opened. *)
Definition on_connection (ws : Handle) (w : World) : World :=
  with_userId ws None (with_readyState ws OPEN w).

(** The transport closes a socket and fires its [close] event. *)
Definition transport_close (ws : Handle) (w : World) : World :=
  on_close ws (with_readyState ws CLOSED w).

(** ** Observations on a trace *)

(** The frames written to socket [ws], oldest first. *)
Fixpoint frames_to (ws : Handle) (t : list Event) : list OutFrame :=
  match t with
  | [] => []
  | Send h f :: rest => if (h =? ws)%nat then f :: frames_to ws rest else frames_to ws rest
  | _ :: rest => frames_to ws rest
  end.

(** All [send] calls of a trace, with their sockets. *)
Fixpoint sends (t : list Event) : list (Handle * OutFrame) :=
  match t with
  | [] => []
  | Send h f :: rest => (h, f) :: sends rest
  | _ :: rest => sends rest
  end.

Definition is_new_message (f : OutFrame) : bool :=
  match f with new_message _ _ => true | _ => false end.

(** A world nobody has connected to yet. *)
Definition empty_world (d : Db) (errs : StoreOp -> option string)
           (e : nat -> string * string) : World :=
  mkWorld [] (fun _ => CLOSED) (fun _ => None) d errs e 0 [].

(** The world after a run of effects that only extend the trace. *)
Definition append_trace (es : list Event) (w : World) : World :=
  mkWorld (connections w) (readyState w) (userId w) (db w)
          (sqlite_err w) (entropy w) (tick w) (trace w ++ es).

(** The sockets [broadcastStatus] writes to: one per entry whose identity
    is not the subject and whose socket is open, in registry order. *)
Definition status_peers (entries : JsMap.t) (u : UserId)
           (rs : Handle -> ReadyState) : list Handle :=
  map snd (filter (fun e => negb (fst e =? u) && isOpen (rs (snd e))) entries).

(** The open sockets of a list of identities, one per identity that has
    one, in list order. *)
Fixpoint live_sockets (ps : list UserId) (w : World) : list Handle :=
  match ps with
  | [] => []
  | p :: rest =>
      match openSocket p w with
      | Some h => h :: live_sockets rest w
      | None => live_sockets rest w
      end
  end.

Definition reachable (w : World) (p : UserId) : bool :=
  match openSocket p w with Some _ => true | None => false end.

(** The target identity of the four signalling frames that are dropped
    without notice when the target is unreachable. *)
Definition silent_target (f : Frame) : option UserId :=
  match f with
  | CallAnswer callerId _ _ => Some callerId
  | IceCandidate target _ _ => Some target
  | CallEnd target _ => Some target
  | CallReject callerId _ => Some callerId
  | _ => None
  end.

(** The record [createMessage] builds from the next identifier and
    timestamp, and the world once it is inserted. *)
Definition new_record (conv sender text ty : string) (w : World) : MessageRecord :=
  mkMessage (fst (entropy w (tick w))) conv sender text ty (snd (entropy w (tick w))).

Definition inserted (r : MessageRecord) (w : World) : World :=
  with_tick (S (tick w))
    (with_db (mkDb (users (db w)) (conversation_participants (db w))
                   (messages (db w) ++ [r])) w).

(** The message of the exception the [try] block raises, if it raises. *)
Definition raised (ws : Handle) (data : Data) (w : World) : option string :=
  match fst (try_block ws data w) with
  | Thrown msg => Some msg
  | Returned _ => None
  end.

(** ** Sample runs

    Two users, [A] (alice) and [B] (bob), in one conversation [C]. *)

Module Scenario.

Definition alice : UserRow := mkUser "A" "alice" "alice@example.org" None "offline".
Definition bob : UserRow := mkUser "B" "bob" "bob@example.org" None "offline".

Definition store : Db := mkDb [alice; bob] [("C", "A"); ("C", "B")] [].

Definition healthy : StoreOp -> option string := fun _ => None.

(** A store that refuses status updates. *)
Definition busy (op : StoreOp) : option string :=
  match op with
  | OpUpdateUserStatus => Some "SQLITE_BUSY: database is locked"
  | _ => None
  end.

(** A store that refuses inserts into [messages]. *)
Definition readonly (op : StoreOp) : option string :=
  match op with
  | OpCreateMessage => Some "SQLITE_READONLY: attempt to write a readonly database"
  | _ => None
  end.

Definition ids (n : nat) : string * string :=
  ("6f1c1f0e-0000-4000-8000-000000000001", "2024-01-01T00:00:00.000Z").

Definition start : World := empty_world store healthy ids.

(** [A] connects on socket 1 and binds. *)
Definition a_bound : World :=
  on_message 1 (Json (Auth "A")) (on_connection 1 start).

(** Then [B] connects on socket 2 and binds. *)
Definition both_bound : World :=
  on_message 2 (Json (Auth "B")) (on_connection 2 a_bound).

(** Instead, [A] connects again on socket 2 while socket 1 is still
    registered: the newer bind replaces the handle. *)
Definition rebound : World :=
  on_message 2 (Json (Auth "A")) (on_connection 2 a_bound).

(** [B]'s socket has started closing; its [close] event has not fired. *)
Definition b_closing : World := with_readyState 2 CLOSING both_bound.

(** Socket 1 connected to a relay whose store refuses status updates. *)
Definition connected_busy : World := on_connection 1 (empty_world store busy ids).

(** Both bound, and the store has turned read-only. *)
Definition both_bound_readonly : World :=
  mkWorld (connections both_bound) (readyState both_bound) (userId both_bound)
          (db both_bound) readonly (entropy both_bound) (tick both_bound)
          (trace both_bound).

Definition hi : Frame := Message "C" "A" "hi" None.

Definition hi_record : MessageRecord :=
  mkMessage "6f1c1f0e-0000-4000-8000-000000000001" "C" "A" "hi" "text"
            "2024-01-01T00:00:00.000Z".

End Scenario.

(** ** Runs of the relay

    What the server reacts to: a socket is accepted, a socket delivers
    data, a socket closes, a socket reports an error. *)

Inductive Input :=
| Connection (ws : Handle)
| Received (ws : Handle) (data : Data)
| Closed (ws : Handle)
| Errored (ws : Handle) (msg : string).

Definition step (i : Input) (w : World) : World :=
  match i with
  | Connection ws => on_connection ws w
  | Received ws data => on_message ws data w
  | Closed ws => transport_close ws w
  | Errored ws msg => on_error ws msg w
  end.

Definition run (inputs : list Input) (w : World) : World :=
  fold_left (fun w' i => step i w') inputs w.

(** The routing key and the outgoing frame of the five signalling cases,
    read off the [switch]. *)
Definition forwarded (f : Frame) : option (UserId * OutFrame) :=
  match f with
  | CallOffer target offer callerId callerName conv isVideo =>
      Some (target, call_offer offer callerId callerName conv isVideo)
  | CallAnswer callerId answer answererId =>
      Some (callerId, call_answer answer answererId)
  | IceCandidate target candidate fromUserId =>
      Some (target, ice_candidate candidate fromUserId)
  | CallEnd target fromUserId => Some (target, call_ended fromUserId)
  | CallReject callerId rejecterId => Some (callerId, call_rejected rejecterId)
  | _ => None
  end.

(** The registry a frame leaves behind: only [auth] writes to it, and it
    does so before anything can fail. *)
Definition registry_after (ws : Handle) (data : Data) (m : JsMap.t) : JsMap.t :=
  match data with
  | Json (Auth u) => JsMap.set u ws m
  | _ => m
  end.

(** ** dbHelpers.deleteUser

    Three statements queued in order under [db.serialize], with no
    transaction around them. Only the last has a callback: [err3] is its
    error, if any, and decides whether the promise rejects. The first two
    are taken to execute (a failure there is raised on the database object,
    outside this function). The promise resolves with [this.changes], the
    number of user rows deleted. *)

Definition delete_messages_of (u : string) (d : Db) : Db :=
  mkDb (users d) (conversation_participants d)
       (filter (fun m => negb (senderId m =? u)) (messages d)).

Definition delete_participations_of (u : string) (d : Db) : Db :=
  mkDb (users d)
       (filter (fun row => negb (snd row =? u)) (conversation_participants d))
       (messages d).

Definition delete_user_row (u : string) (d : Db) : Db :=
  mkDb (filter (fun r => negb (user_id r =? u)) (users d))
       (conversation_participants d) (messages d).

Definition deleteUser (u : string) (err3 : option string) (d : Db)
  : Outcome nat * Db :=
  let d2 := delete_participations_of u (delete_messages_of u d) in
  match err3 with
  | Some err => (Thrown err, d2)
  | None =>
      (Returned (List.length (filter (fun r => user_id r =? u) (users d2))),
       delete_user_row u d2)
  end.

(** The sockets the handler of a frame received on [ws] may write to: [ws]
    itself, and the sockets that are registered and open when the frame
    arrives. *)
Definition writable (ws : Handle) (w : World) (h : Handle) : Prop :=
  h = ws \/ exists id, In (id, h) (connections w) /\ readyState w h = OPEN.

(** What handling one frame may do to the store's tables: an [auth] frame
    at most sets one identity's status to online, a [message] frame at most
    appends the record built from its fields, any other data nothing. *)
Definition store_step (data : Data) (d d' : Db) : Prop :=
  match data with
  | Json (Auth u) =>
      d' = d \/
      d' = mkDb (map (set_status u "online") (users d))
                (conversation_participants d) (messages d)
  | Json (Message conv sender text mt) =>
      d' = d \/
      exists r, d' = mkDb (users d) (conversation_participants d) (messages d ++ [r]) /\
                conversationId r = conv /\ senderId r = sender /\
                content r = text /\ type r = messageType_or_text mt
  | _ => d' = d
  end.

(** A [new_message] frame is recorded when the record it carries is a row
    of [messages]; every other frame is. *)
Definition recorded (d : Db) (f : OutFrame) : Prop :=
  match f with
  | new_message r _ => In r (messages d)
  | _ => True
  end.

(** The most the relay does to the store between two moments: memberships
    are as before, the user rows are the same rows in the same order and
    equal in every column but [status], and messages were only appended. *)
Definition but_status (r : UserRow) : string * string * string * option string :=
  (user_id r, username r, email r, avatar r).

Definition store_footprint (d d' : Db) : Prop :=
  conversation_participants d' = conversation_participants d /\
  map but_status (users d') = map but_status (users d) /\
  exists appended, messages d' = messages d ++ appended.

(** Every [new_message] frame written so far carries a stored record. *)
Definition fanout_is_recorded (w : World) : Prop :=
  forall h r name, In (Send h (new_message r name)) (trace w) ->
                   In r (messages (db w)).

(** ** Accounts: /api/register and /api/login

    The full [users] table with its constraints (id is the primary key,
    username and email are UNIQUE), [getUserByEmail], [createUser],
    [verifyPassword] and the two routes. bcrypt is outside the repository:
    [hashSync] takes the password and the salt it draws, [compareSync] a
    password and a stored hash. [faults] says which helper's statement
    sqlite refuses for a reason other than a constraint. A request field is
    [None] when the body lacks it. *)

Module Accounts.

Record Account := mkAccount {
  acc_id : string;
  acc_username : string;
  acc_display_name : option string;
  acc_email : string;
  acc_password : string;
  acc_avatar : option string;
  acc_bio : option string;
  acc_status : string;
  acc_created_at : string
}.

Inductive Op := OpGetUserByEmail | OpCreateUser.

(** [res.json(...)] with the user's id, username and email, or
    [res.status(code).json({ error })]. *)
Inductive Response :=
| Success (id username email : string)
| Failure (code : nat) (error : string).

(** [!field] for a field of the request body. *)
Definition missing (field : option string) : bool :=
  match field with
  | None => true
  | Some s => s =? ""
  end.

(** [SELECT * FROM users WHERE email = ?] through [db.get]. *)
Definition getUserByEmail (email : string) (t : list Account) : option Account :=
  find (fun a => acc_email a =? email) t.

(** The row would break the primary key or a UNIQUE column. *)
Definition violates_constraint (id username email : string) (t : list Account) : bool :=
  existsb (fun a => (acc_id a =? id) || (acc_username a =? username)
                    || (acc_email a =? email)) t.

Section Bcrypt.

Variable hashSync : string -> string -> string.
Variable compareSync : string -> string -> bool.
Variable faults : Op -> option string.

(** [INSERT INTO users (id, username, email, password)]; the other
    columns take their defaults. *)
Definition createUser (uuid salt now username email password : string)
           (t : list Account) : Outcome (string * string * string) * list Account :=
  match faults OpCreateUser with
  | Some err => (Thrown err, t)
  | None =>
      if violates_constraint uuid username email t
      then (Thrown "SQLITE_CONSTRAINT: UNIQUE constraint failed", t)
      else (Returned (uuid, username, email),
            t ++ [mkAccount uuid username None email (hashSync password salt)
                            None None "offline" now])
  end.

(** [app.post('/api/register', ...)] *)
Definition register (uuid salt now : string) (username email password : option string)
           (t : list Account) : Response * list Account :=
  if missing username || missing email || missing password
  then (Failure 400 "All fields are required", t)
  else
    match username, email, password with
    | Some u, Some e, Some p =>
        match faults OpGetUserByEmail with
        | Some _ => (Failure 500 "Registration failed", t)
        | None =>
            match getUserByEmail e t with
            | Some _ => (Failure 400 "Email already registered", t)
            | None =>
                match createUser uuid salt now u e p t with
                | (Returned (i, u', e'), t') => (Success i u' e', t')
                | (Thrown _, t') => (Failure 500 "Registration failed", t')
                end
            end
        end
    | _, _, _ => (Failure 400 "All fields are required", t)
    end.

(** [app.post('/api/login', ...)] *)
Definition login (email password : option string) (t : list Account) : Response :=
  if missing email || missing password
  then Failure 400 "Email and password required"
  else
    match email, password with
    | Some e, Some p =>
        match faults OpGetUserByEmail with
        | Some _ => Failure 500 "Login failed"
        | None =>
            match getUserByEmail e t with
            | None => Failure 401 "Invalid credentials"
            | Some user =>
                if compareSync p (acc_password user)
                then Success (acc_id user) (acc_username user) (acc_email user)
                else Failure 401 "Invalid credentials"
            end
        end
    | _, _ => Failure 400 "Email and password required"
    end.

End Bcrypt.

(** The table's constraints as an invariant. *)
Definition well_formed (t : list Account) : Prop :=
  NoDup (map acc_id t) /\ NoDup (map acc_username t) /\ NoDup (map acc_email t).

(** A stand-in for bcrypt in sample runs: it ignores the salt and keeps
    the password as its own hash. *)
Definition toy_hash (password salt : string) : string := password.

Definition toy_compare (password hash : string) : bool := hash =? password.

Definition no_faults : Op -> option string := fun _ => None.

Definition carol : Account :=
  mkAccount "id-carol" "carol" None "carol@example.org" "carol-secret"
            None None "offline" "2024-01-01 00:00:00".

End Accounts.

(** ** Channels: createChannel, joinChannel, isChannelAdmin,
       createChannelMessage and the two POST routes

    The three channel tables with the constraints the helpers can hit:
    [channels.id] and [channel_messages.id] are primary keys,
    (channel_id, user_id) is the primary key of [channel_members], and
    name, owner_id, sender_id and content are NOT NULL. A request field is
    [None] when the body lacks it, which sqlite binds as NULL. [faults]
    says which statement sqlite refuses for another reason. *)

Module Channels.

Record Channel := mkChannel {
  ch_id : string;
  ch_name : string;
  ch_description : option string;
  ch_avatar : option string;
  ch_owner_id : string;
  ch_created_at : string
}.

Record Member := mkMember {
  m_channel_id : string;
  m_user_id : string;
  m_role : string;
  m_joined_at : string
}.

Record ChannelMessage := mkChannelMessage {
  cm_id : string;
  cm_channel_id : string;
  cm_sender_id : string;
  cm_content : string;
  cm_type : string;
  cm_created_at : string
}.

Record Store := mkStore {
  channels : list Channel;
  channel_members : list Member;
  channel_messages : list ChannelMessage
}.

Inductive Op :=
  OpInsertChannel | OpInsertOwner | OpJoinChannel | OpIsChannelAdmin | OpInsertMessage.

Inductive Response :=
| ChannelCreated (id name : string) (description : option string) (ownerId : string)
| MessagePosted (message : ChannelMessage)
| Failure (code : nat) (error : string).

Definition not_null : string := "SQLITE_CONSTRAINT: NOT NULL constraint failed".
Definition not_unique : string := "SQLITE_CONSTRAINT: UNIQUE constraint failed".

Definition is_member (channelId userId : string) (s : Store) : bool :=
  existsb (fun m => (m_channel_id m =? channelId) && (m_user_id m =? userId))
          (channel_members s).

(** [SELECT role FROM channel_members WHERE channel_id = ? AND user_id = ?
    AND role IN ('admin', 'owner')] has a row. *)
Definition has_admin_row (channelId userId : string) (s : Store) : bool :=
  existsb (fun m => (m_channel_id m =? channelId) && (m_user_id m =? userId)
                    && ((m_role m =? "admin") || (m_role m =? "owner")))
          (channel_members s).

Section Helpers.

Variable faults : Op -> option string.

(** The insert of the owner as admin has a callback that ignores its
    error, and the promise resolves whatever becomes of it. *)
Definition createChannel (uuid now : string) (name : option string)
           (description : option string) (ownerId : option string) (s : Store)
  : Outcome Response * Store :=
  match faults OpInsertChannel with
  | Some err => (Thrown err, s)
  | None =>
      match name, ownerId with
      | Some n, Some o =>
          if existsb (fun c => ch_id c =? uuid) (channels s)
          then (Thrown not_unique, s)
          else
            let s1 := mkStore (channels s ++ [mkChannel uuid n description None o now])
                              (channel_members s) (channel_messages s) in
            let s2 :=
              match faults OpInsertOwner with
              | Some _ => s1
              | None =>
                  if is_member uuid o s1 then s1
                  else mkStore (channels s1)
                               (channel_members s1 ++ [mkMember uuid o "admin" now])
                               (channel_messages s1)
              end in
            (Returned (ChannelCreated uuid n description o), s2)
      | _, _ => (Thrown not_null, s)
      end
  end.

(** [INSERT OR IGNORE INTO channel_members ... 'member'] *)
Definition joinChannel (now channelId userId : string) (s : Store)
  : Outcome unit * Store :=
  match faults OpJoinChannel with
  | Some err => (Thrown err, s)
  | None =>
      if is_member channelId userId s then (Returned tt, s)
      else (Returned tt,
            mkStore (channels s)
                    (channel_members s ++ [mkMember channelId userId "member" now])
                    (channel_messages s))
  end.

(** A [userId] that is missing is bound as NULL, which equals no row. *)
Definition isChannelAdmin (channelId : string) (userId : option string) (s : Store)
  : Outcome bool :=
  match faults OpIsChannelAdmin with
  | Some err => Thrown err
  | None =>
      match userId with
      | Some u => Returned (has_admin_row channelId u s)
      | None => Returned false
      end
  end.

(** The parameter default [type = 'text'] applies to a missing [type] only. *)
Definition createChannelMessage (uuid now channelId : string)
           (senderId content type : option string) (s : Store)
  : Outcome ChannelMessage * Store :=
  match faults OpInsertMessage with
  | Some err => (Thrown err, s)
  | None =>
      match senderId, content with
      | Some sender, Some text =>
          if existsb (fun m => cm_id m =? uuid) (channel_messages s)
          then (Thrown not_unique, s)
          else
            let m := mkChannelMessage uuid channelId sender text
                       (match type with Some t => t | None => "text" end) now in
            (Returned m,
             mkStore (channels s) (channel_members s) (channel_messages s ++ [m]))
      | _, _ => (Thrown not_null, s)
      end
  end.

(** [app.post('/api/channels', ...)] *)
Definition post_channel (uuid now : string) (name description ownerId : option string)
           (s : Store) : Response * Store :=
  match createChannel uuid now name description ownerId s with
  | (Returned r, s') => (r, s')
  | (Thrown _, s') => (Failure 500 "Failed to create channel", s')
  end.

(** [app.post('/api/channels/:channelId/messages', ...)] *)
Definition post_channel_message (uuid now channelId : string)
           (senderId content type : option string) (s : Store) : Response * Store :=
  match isChannelAdmin channelId senderId s with
  | Thrown _ => (Failure 500 "Failed to post message", s)
  | Returned false => (Failure 403 "Only admins can post in channels", s)
  | Returned true =>
      match createChannelMessage uuid now channelId senderId content type s with
      | (Returned m, s') => (MessagePosted m, s')
      | (Thrown _, s') => (Failure 500 "Failed to post message", s')
      end
  end.

End Helpers.

Definition no_faults : Op -> option string := fun _ => None.

Definition empty : Store := mkStore [] [] [].

(** The primary key of [channel_members]. *)
Definition members_keyed (s : Store) : Prop :=
  NoDup (map (fun m => (m_channel_id m, m_user_id m)) (channel_members s)).

End Channels.

(** ** The transport's side of a write

    What becomes of [ws.send(frame)] on an open socket is the transport's
    business: the frame is delivered, or the write fails and the transport
    reports it afterwards through the socket's [error] event, whose handler
    logs it. Either way the call itself returns. With a transport at hand
    the trace keeps the writes that reached their peer. *)

Inductive WriteOutcome := Delivered | Lost.

Definition Transport := Handle -> WriteOutcome.

Definition delivers (tr : Transport) (ws : Handle) : bool :=
  match tr ws with Delivered => true | Lost => false end.

Definition send_on (tr : Transport) (ws : Handle) (f : OutFrame) : M unit :=
  if delivers tr ws then send ws f else ret tt.

(** [broadcastStatus] over a transport: the same loop, each write going
    through [send_on]. *)
Fixpoint forEach_status_on (tr : Transport) (entries : JsMap.t)
         (u : UserId) (s : string) : M unit :=
  match entries with
  | [] => ret tt
  | (id, ws) :: rest =>
      fun w =>
        ((if negb (id =? u) && isOpen (readyState w ws)
          then send_on tr ws (user_status u s)
          else ret tt) ;;
         forEach_status_on tr rest u s) w
  end.

Definition broadcastStatus_on (tr : Transport) (u : UserId) (s : string) : M unit :=
  fun w => forEach_status_on tr (connections w) u s w.


(** The body of the [close] handler as the async function it is: its
    outcome is how the promise it returns settles. Nothing awaits that
    promise and the handler has no try/catch. *)
Definition close_handler (ws : Handle) : M unit :=
  fun w =>
    match userId w ws with
    | Some u =>
        if truthy u
        then (registry_delete u ;;
              updateUserStatus u "offline" ;;
              broadcastStatus u "offline") w
        else ret tt w
    | None => ret tt w
    end.

(** A third user on a third socket: [Z], who has no user row, binds on
    socket 3 after [A] and [B]. *)
Module Trio.

Definition three_bound : World :=
  on_message 3 (Json (Auth "Z")) (on_connection 3 Scenario.both_bound).

(** Writes to socket 2 fail. *)
Definition lossy_2 : Transport :=
  fun ws => if (ws =? 2)%nat then Lost else Delivered.

End Trio.

(** * Properties *)

(** ** The registry as a map *)

Module JsMapFacts.
Import JsMap.

Lemma get_set_same k v m : get k (set k v m) = Some v.
Proof.
  induction m as [|[k' v'] m IH]; simpl.
  - now rewrite String.eqb_refl.
  - destruct (k' =? k) eqn:E; simpl; rewrite E; auto.
Qed.

Lemma get_set_other k k' v m : k' <> k -> get k' (set k v m) = get k' m.
Proof.
  intros Hne. induction m as [|[k0 v0] m IH]; simpl.
  - destruct (k =? k') eqn:E; auto.
    apply String.eqb_eq in E. congruence.
  - destruct (k0 =? k) eqn:E; simpl.
    + apply String.eqb_eq in E. subst k0.
      destruct (k =? k') eqn:E'; auto.
      apply String.eqb_eq in E'. congruence.
    + destruct (k0 =? k'); auto.
Qed.

Lemma get_delete_same k m : get k (delete k m) = None.
Proof.
  induction m as [|[k' v'] m IH]; simpl; auto.
  destruct (k' =? k) eqn:E; simpl; auto. now rewrite E.
Qed.

Lemma get_delete_other k k' m : k' <> k -> get k' (delete k m) = get k' m.
Proof.
  intros Hne. induction m as [|[k0 v0] m IH]; simpl; auto.
  destruct (k0 =? k) eqn:E; simpl.
  - apply String.eqb_eq in E. subst k0.
    destruct (k =? k') eqn:E'; auto.
    apply String.eqb_eq in E'. congruence.
  - destruct (k0 =? k'); auto.
Qed.

Lemma in_keys_set k v m x : In x (keys (set k v m)) <-> x = k \/ In x (keys m).
Proof.
  unfold keys. induction m as [|[k' v'] m IH]; simpl.
  - intuition congruence.
  - destruct (k' =? k) eqn:E; simpl.
    + apply String.eqb_eq in E. subst. intuition congruence.
    + rewrite IH. intuition congruence.
Qed.

Lemma in_keys_delete k m x : In x (keys (delete k m)) -> In x (keys m).
Proof.
  unfold keys. induction m as [|[k' v'] m IH]; simpl; auto.
  destruct (k' =? k); simpl; intuition.
Qed.

(** At most one entry per identity, whatever sequence of [set] and
    [delete] built the map. *)
Lemma NoDup_keys_set k v m : NoDup (keys m) -> NoDup (keys (set k v m)).
Proof.
  induction m as [|[k' v'] m IH]; simpl; intros Hnd.
  - constructor; [intros []|constructor].
  - inversion Hnd as [|? ? Hnotin Hnd']; subst.
    destruct (k' =? k) eqn:E; simpl.
    + constructor; assumption.
    + constructor; [|apply IH; assumption].
      intros Hin. apply (in_keys_set k v m k') in Hin.
      destruct Hin as [->|Hin]; [|contradiction].
      now rewrite String.eqb_refl in E.
Qed.

Lemma NoDup_keys_delete k m : NoDup (keys m) -> NoDup (keys (delete k m)).
Proof.
  induction m as [|[k' v'] m IH]; simpl; intros Hnd; auto.
  inversion Hnd as [|? ? Hnotin Hnd']; subst.
  destruct (k' =? k); simpl; auto.
  constructor; auto.
  intros Hin. apply Hnotin. eapply in_keys_delete; eassumption.
Qed.

End JsMapFacts.

(** ** Traces *)

Lemma append_trace_nil w : append_trace [] w = w.
Proof. destruct w; unfold append_trace; simpl. now rewrite app_nil_r. Qed.

Lemma append_trace_log e es w :
  append_trace es (log e w) = append_trace (e :: es) w.
Proof. unfold append_trace, log; simpl. now rewrite <- app_assoc. Qed.

Lemma sends_app t1 t2 : sends (t1 ++ t2) = sends t1 ++ sends t2.
Proof.
  induction t1 as [|e t1 IH]; simpl; auto.
  destruct e; simpl; auto. now rewrite IH.
Qed.

Lemma frames_to_map_send ws (f : OutFrame) hs :
  frames_to ws (map (fun h => Send h f) hs)
  = repeat f (count_occ Nat.eq_dec hs ws).
Proof.
  induction hs as [|h hs IH]; simpl; auto.
  destruct (Nat.eq_dec h ws) as [->|Hne].
  - rewrite Nat.eqb_refl. simpl. now rewrite IH.
  - apply Nat.eqb_neq in Hne. now rewrite Hne.
Qed.

(** ** The loops *)

Lemma forEach_status_run entries u s w :
  forEach_status entries u s w
  = (Returned tt,
     append_trace (map (fun h => Send h (user_status u s))
                       (status_peers entries u (readyState w))) w).
Proof.
  revert w. induction entries as [|[id ws] rest IH]; intros w.
  - simpl. now rewrite append_trace_nil.
  - unfold status_peers. simpl. unfold bind.
    destruct (negb (id =? u) && isOpen (readyState w ws)); simpl.
    + rewrite IH. simpl. now rewrite append_trace_log.
    + now rewrite IH.
Qed.

Lemma live_sockets_log ps e w : live_sockets ps (log e w) = live_sockets ps w.
Proof.
  induction ps as [|p ps IH]; simpl; auto.
  change (openSocket p (log e w)) with (openSocket p w).
  now rewrite IH.
Qed.

Lemma live_sockets_ext ps w1 w2 :
  connections w1 = connections w2 -> readyState w1 = readyState w2 ->
  live_sockets ps w1 = live_sockets ps w2.
Proof.
  intros Hc Hr. induction ps as [|p ps IH]; simpl; auto.
  unfold openSocket. rewrite Hc, Hr, IH. reflexivity.
Qed.

Lemma existsb_ext {A} (f g : A -> bool) l :
  (forall x, f x = g x) -> existsb f l = existsb g l.
Proof. intros H. induction l as [|a l IH]; simpl; congruence. Qed.

Lemma forEach_new_message_run ps m row w :
  forEach_new_message ps m (Some row) w
  = (Returned tt,
     append_trace (map (fun h => Send h (new_message m (username row)))
                       (live_sockets ps w)) w).
Proof.
  revert w. induction ps as [|p ps IH]; intros w.
  - simpl. now rewrite append_trace_nil.
  - simpl. unfold bind.
    destruct (openSocket p w) as [h|]; simpl.
    + rewrite IH, live_sockets_log. simpl. now rewrite append_trace_log.
    + now rewrite IH.
Qed.

(** Without a sender row the loop raises at the first participant with an
    open socket, before anything is written. *)
Lemma forEach_new_message_undefined ps m w :
  forEach_new_message ps m None w
  = (if existsb (reachable w) ps then Thrown typeError_username else Returned tt, w).
Proof.
  induction ps as [|p ps IH]; simpl; auto.
  unfold bind, reachable at 1.
  destruct (openSocket p w) as [h|]; simpl; auto.
Qed.

Lemma forEach_typing_returns ps conv u t w :
  exists hs, forEach_typing ps conv u t w
             = (Returned tt, append_trace (map (fun h => Send h (typing conv u t)) hs) w).
Proof.
  revert w. induction ps as [|p ps IH]; intros w.
  - exists []. simpl. now rewrite append_trace_nil.
  - simpl. unfold bind.
    destruct (negb (p =? u)); simpl.
    + destruct (openSocket p w) as [h|]; simpl.
      * destruct (IH (log (Send h (typing conv u t)) w)) as [hs E].
        exists (h :: hs). rewrite E. simpl. now rewrite append_trace_log.
      * apply IH.
    + apply IH.
Qed.

(** ** Handlers, statement by statement *)

Lemma openSocket_None u w :
  openSocket u w = None <->
  JsMap.get u (connections w) = None \/
  exists h, JsMap.get u (connections w) = Some h /\ readyState w h <> OPEN.
Proof.
  unfold openSocket. destruct (JsMap.get u (connections w)) as [h|].
  - destruct (readyState w h) eqn:E; simpl; split; intros H;
      try discriminate; try reflexivity;
      try (right; exists h; split; [reflexivity|congruence]).
    destruct H as [H|[h' [H1 H2]]]; [discriminate|].
    inversion H1; subst. congruence.
  - split; auto.
Qed.

Lemma openSocket_Some u w h :
  openSocket u w = Some h <->
  JsMap.get u (connections w) = Some h /\ readyState w h = OPEN.
Proof.
  unfold openSocket.
  destruct (JsMap.get u (connections w)) as [h'|];
    [|split; [discriminate|intros [H _]; discriminate]].
  split.
  - destruct (readyState w h') eqn:E; simpl; intros H; inversion H; subst; auto.
  - intros [H1 H2]. inversion H1; subst. now rewrite H2.
Qed.

Lemma broadcastStatus_run u s w :
  broadcastStatus u s w
  = (Returned tt,
     append_trace (map (fun h => Send h (user_status u s))
                       (status_peers (connections w) u (readyState w))) w).
Proof. unfold broadcastStatus. apply forEach_status_run. Qed.

Lemma on_close_connections ws u w :
  userId w ws = Some u -> truthy u = true ->
  connections (on_close ws w) = JsMap.delete u (connections w).
Proof.
  intros Hu Ht. unfold on_close. rewrite Hu, Ht.
  unfold bind, registry_delete, updateUserStatus. simpl.
  destruct (sqlite_err w OpUpdateUserStatus); simpl; auto.
  rewrite broadcastStatus_run. reflexivity.
Qed.

Lemma on_close_readyState ws w : readyState (on_close ws w) = readyState w.
Proof.
  unfold on_close. destruct (userId w ws) as [u|]; auto.
  destruct (truthy u); auto.
  unfold bind, registry_delete, updateUserStatus. simpl.
  destruct (sqlite_err w OpUpdateUserStatus); simpl; auto.
  rewrite broadcastStatus_run. reflexivity.
Qed.

(** The [auth] case when the store accepts the update. *)
Lemma auth_run ws u w :
  sqlite_err w OpUpdateUserStatus = None ->
  let w1 := with_db (mkDb (map (set_status u "online") (users (db w)))
                          (conversation_participants (db w)) (messages (db w)))
              (with_connections (JsMap.set u ws (connections w))
                 (with_userId ws (Some u) w)) in
  on_message ws (Json (Auth u)) w
  = append_trace
      ([RegistrySet u ws; StoreUpdateUserStatus u "online" true]
       ++ map (fun h => Send h (user_status u "online"))
              (status_peers (JsMap.set u ws (connections w)) u (readyState w))
       ++ [Send ws auth_success]) w1.
Proof.
  intros Hok w1. unfold on_message, try_block, dispatch.
  unfold bind at 1. unfold assign_userId.
  unfold bind at 1. unfold registry_set.
  unfold bind at 1. unfold updateUserStatus. simpl. rewrite Hok.
  unfold bind. rewrite broadcastStatus_run. simpl.
  unfold send, emit, log, append_trace. simpl.
  repeat rewrite <- app_assoc. reflexivity.
Qed.

(** The [auth] case when the store rejects the update: the bind stays. *)
Lemma auth_rejected ws u w err :
  sqlite_err w OpUpdateUserStatus = Some err ->
  on_message ws (Json (Auth u)) w
  = append_trace
      [RegistrySet u ws; StoreUpdateUserStatus u "online" false;
       ConsoleError err; Send ws (error err)]
      (with_connections (JsMap.set u ws (connections w))
         (with_userId ws (Some u) w)).
Proof.
  intros Herr. unfold on_message, try_block, dispatch.
  unfold bind at 1. unfold assign_userId.
  unfold bind at 1. unfold registry_set.
  unfold bind at 1. unfold updateUserStatus. simpl. rewrite Herr.
  unfold bind, send, emit, log, append_trace. simpl.
  repeat rewrite <- app_assoc. reflexivity.
Qed.

(** The [message] case, store call by store call. *)
Lemma message_run ws conv sender text mt w :
  let ty := messageType_or_text mt in
  let r := new_record conv sender text ty w in
  let w1 := inserted r w in
  let ps := participants_of conv (db w) in
  dispatch ws (Message conv sender text mt) w
  = match sqlite_err w OpCreateMessage with
    | Some err =>
        (Thrown err, append_trace [StoreCreateMessage conv sender text ty false] w)
    | None =>
        match sqlite_err w OpGetConversationParticipants with
        | Some err =>
            (Thrown err,
             append_trace [StoreCreateMessage conv sender text ty true;
                           StoreGetConversationParticipants conv false] w1)
        | None =>
            match sqlite_err w OpGetUserById with
            | Some err =>
                (Thrown err,
                 append_trace [StoreCreateMessage conv sender text ty true;
                               StoreGetConversationParticipants conv true;
                               StoreGetUserById sender false] w1)
            | None =>
                let stored := [StoreCreateMessage conv sender text ty true;
                               StoreGetConversationParticipants conv true;
                               StoreGetUserById sender true] in
                match user_by_id sender (db w) with
                | Some row =>
                    (Returned tt,
                     append_trace
                       (stored ++ map (fun h => Send h (new_message r (username row)))
                                      (live_sockets ps w)) w1)
                | None =>
                    (if existsb (reachable w) ps
                     then Thrown typeError_username else Returned tt,
                     append_trace stored w1)
                end
            end
        end
    end.
Proof.
  intros ty r w1 ps. unfold dispatch.
  unfold bind at 1. unfold createMessage. fold ty.
  destruct (sqlite_err w OpCreateMessage) as [err|] eqn:Ec; [reflexivity|].
  subst r w1. unfold new_record, inserted.
  destruct (entropy w (tick w)) as [uuid date] eqn:En. simpl fst. simpl snd.
  set (r := mkMessage uuid conv sender text ty date).
  unfold bind at 1. unfold getConversationParticipants. simpl sqlite_err.
  destruct (sqlite_err w OpGetConversationParticipants) as [err|] eqn:Ep;
    [rewrite <- !append_trace_log; now rewrite append_trace_nil|].
  unfold bind at 1. unfold getUserById. simpl sqlite_err.
  destruct (sqlite_err w OpGetUserById) as [err|] eqn:Eu;
    [rewrite <- !append_trace_log; now rewrite append_trace_nil|].
  simpl db. unfold user_by_id at 1. simpl users. fold (user_by_id sender (db w)).
  unfold participants_of at 1. simpl conversation_participants.
  fold (participants_of conv (db w)). fold ps.
  destruct (user_by_id sender (db w)) as [row|].
  - rewrite forEach_new_message_run.
    rewrite !live_sockets_log, !append_trace_log.
    rewrite (live_sockets_ext ps _ w); reflexivity.
  - rewrite forEach_new_message_undefined.
    rewrite (existsb_ext _ (reachable w)) by reflexivity.
    rewrite <- !append_trace_log. rewrite append_trace_nil. reflexivity.
Qed.

(** ** Connection registry and teardown *)

(** C2, as the code has it: the [close] handler of a connection bound to a
    truthy identity deletes the registry entry of that identity whichever
    handle it maps to, and touches no other identity's entry. *)
Theorem close_unbinds_by_identity ws u w :
  userId w ws = Some u -> truthy u = true ->
  JsMap.get u (connections (on_close ws w)) = None /\
  (forall k, k <> u ->
     JsMap.get k (connections (on_close ws w)) = JsMap.get k (connections w)).
Proof.
  intros Hu Ht. rewrite (on_close_connections ws u w Hu Ht). split.
  - apply JsMapFacts.get_delete_same.
  - intros k Hk. now apply JsMapFacts.get_delete_other.
Qed.

Lemma close_unbinds_by_identity_witness :
  userId Scenario.rebound 1 = Some "A" /\ truthy "A" = true /\
  JsMap.get "A" (connections (on_close 1 Scenario.rebound)) = None /\
  (forall k, k <> "A" ->
     JsMap.get k (connections (on_close 1 Scenario.rebound))
     = JsMap.get k (connections Scenario.rebound)).
Proof.
  split; [reflexivity|]. split; [reflexivity|].
  apply (close_unbinds_by_identity 1 "A" Scenario.rebound); reflexivity.
Defined.

(** The guard [if (userId)] of the [close] handler: a connection that never
    bound, or bound to the empty identity, tears nothing down. *)
Lemma close_without_identity ws w :
  userId w ws = None \/ userId w ws = Some "" -> on_close ws w = w.
Proof. intros [H|H]; unfold on_close; rewrite H; reflexivity. Qed.

(** C2, as stated, fails: [A] binds on socket 1, binds again on the newer
    socket 2, then socket 1 closes. The registry maps [A] to socket 2
    before the close, and the stale close evicts that newer entry. *)
Lemma stale_close_evicts_newer_bind :
  userId Scenario.rebound 1 = Some "A" /\
  JsMap.get "A" (connections Scenario.rebound) = Some 2 /\
  JsMap.get "A" (connections (transport_close 1 Scenario.rebound)) = None /\
  JsMap.get "A" (connections (transport_close 1 Scenario.rebound)) <> Some 2.
Proof. repeat split; try reflexivity. discriminate. Qed.

(** C9, as the code has it: a second [auth] with another, non-empty
    identity [V] on a connection bound to [U] leaves [U]'s entry on this
    socket next to [V]'s; when the socket then closes only [V]'s entry
    goes, and [U] stays registered on the closed socket. *)
Theorem reauth_leaves_stale_entry ws U V w :
  U <> V -> truthy V = true ->
  userId w ws = Some U -> JsMap.get U (connections w) = Some ws ->
  let w1 := on_message ws (Json (Auth V)) w in
  let w2 := transport_close ws w1 in
  (JsMap.get U (connections w1) = Some ws /\
   JsMap.get V (connections w1) = Some ws) /\
  (JsMap.get V (connections w2) = None /\
   JsMap.get U (connections w2) = Some ws /\
   readyState w2 ws = CLOSED /\
   forall k, k <> V -> JsMap.get k (connections w2) = JsMap.get k (connections w)).
Proof.
  intros Hne Ht Hbound Hreg w1 w2.
  assert (Hc1 : connections w1 = JsMap.set V ws (connections w)).
  { subst w1. destruct (sqlite_err w OpUpdateUserStatus) as [err|] eqn:E.
    - now rewrite (auth_rejected ws V w err E).
    - now rewrite (auth_run ws V w E). }
  assert (Hu1 : userId w1 ws = Some V).
  { subst w1. destruct (sqlite_err w OpUpdateUserStatus) as [err|] eqn:E.
    - rewrite (auth_rejected ws V w err E). simpl. now rewrite Nat.eqb_refl.
    - rewrite (auth_run ws V w E). simpl. now rewrite Nat.eqb_refl. }
  assert (Hc2 : connections w2 = JsMap.delete V (JsMap.set V ws (connections w))).
  { subst w2. unfold transport_close.
    rewrite (on_close_connections ws V (with_readyState ws CLOSED w1) Hu1 Ht).
    simpl. now rewrite Hc1. }
  split; [split|split; [|split; [|split]]].
  - rewrite Hc1, JsMapFacts.get_set_other; auto.
  - rewrite Hc1. apply JsMapFacts.get_set_same.
  - rewrite Hc2. apply JsMapFacts.get_delete_same.
  - rewrite Hc2, JsMapFacts.get_delete_other, JsMapFacts.get_set_other; auto.
  - subst w2. unfold transport_close. rewrite on_close_readyState.
    simpl. now rewrite Nat.eqb_refl.
  - intros k Hk.
    rewrite Hc2, JsMapFacts.get_delete_other, JsMapFacts.get_set_other; auto.
Qed.

Lemma reauth_leaves_stale_entry_witness :
  "A" <> "B" /\ truthy "B" = true /\
  userId Scenario.a_bound 1 = Some "A" /\
  JsMap.get "A" (connections Scenario.a_bound) = Some 1 /\
  (JsMap.get "A" (connections (on_message 1 (Json (Auth "B")) Scenario.a_bound)) = Some 1 /\
   JsMap.get "B" (connections (on_message 1 (Json (Auth "B")) Scenario.a_bound)) = Some 1) /\
  (JsMap.get "B" (connections
     (transport_close 1 (on_message 1 (Json (Auth "B")) Scenario.a_bound))) = None /\
   JsMap.get "A" (connections
     (transport_close 1 (on_message 1 (Json (Auth "B")) Scenario.a_bound))) = Some 1 /\
   readyState (transport_close 1 (on_message 1 (Json (Auth "B")) Scenario.a_bound)) 1
   = CLOSED /\
   forall k, k <> "B" ->
     JsMap.get k (connections
       (transport_close 1 (on_message 1 (Json (Auth "B")) Scenario.a_bound)))
     = JsMap.get k (connections Scenario.a_bound)).
Proof.
  split; [discriminate|]. split; [reflexivity|].
  split; [reflexivity|]. split; [reflexivity|].
  apply (reauth_leaves_stale_entry 1 "A" "B" Scenario.a_bound);
    [discriminate|reflexivity|reflexivity|reflexivity].
Defined.

(** C9, as stated, fails for the empty identity: socket 1 is bound to [A]
    and receives a second [auth] frame carrying the empty string. Both
    identities then map to socket 1, but on close the handler's guard
    [if (userId)] is false and nothing is removed: the entry of the second
    identity stays. *)
Lemma empty_identity_survives_close :
  "A" <> "" /\
  userId Scenario.a_bound 1 = Some "A" /\
  JsMap.get "A" (connections Scenario.a_bound) = Some 1 /\
  connections (on_message 1 (Json (Auth "")) Scenario.a_bound)
  = [("A", 1); ("", 1)] /\
  connections (transport_close 1 (on_message 1 (Json (Auth "")) Scenario.a_bound))
  = [("A", 1); ("", 1)] /\
  JsMap.get "" (connections
     (transport_close 1 (on_message 1 (Json (Auth "")) Scenario.a_bound)))
  <> None.
Proof. repeat split; try reflexivity; discriminate. Qed.

(** ** Presence broadcast *)

Lemma in_status_peers entries u rs ws :
  In ws (status_peers entries u rs) <->
  exists id, In (id, ws) entries /\ id <> u /\ rs ws = OPEN.
Proof.
  unfold status_peers. rewrite in_map_iff. split.
  - intros [[id h] [Hh Hin]]. simpl in Hh. subst h.
    apply filter_In in Hin. destruct Hin as [Hin Hok]. simpl in Hok.
    apply andb_prop in Hok. destruct Hok as [Hid Hopen].
    exists id. split; [assumption|]. split.
    + intros ->. now rewrite String.eqb_refl in Hid.
    + destruct (rs ws); simpl in Hopen; congruence.
  - intros [id [Hin [Hid Hopen]]]. exists (id, ws). split; [reflexivity|].
    apply filter_In. split; [assumption|]. simpl.
    apply String.eqb_neq in Hid. now rewrite Hid, Hopen.
Qed.







(** [A] goes offline while [B] (socket 2) and [Z] (socket 3) are bound and
    the write to socket 2 fails: socket 3 is written all the same, and the
    caller gets its result. *)
Example lost_write_spares_the_others :
  broadcastStatus_on Trio.lossy_2 "A" "offline" Trio.three_bound
  = (Returned tt,
     append_trace [Send 3 (user_status "A" "offline")] Trio.three_bound) /\
  broadcastStatus "A" "offline" Trio.three_bound
  = (Returned tt,
     append_trace [Send 2 (user_status "A" "offline");
                   Send 3 (user_status "A" "offline")] Trio.three_bound).
Proof. split; reflexivity. Qed.

Example offline_broadcast_reaches_bob :
  trace (snd (broadcastStatus "A" "offline" Scenario.both_bound))
  = trace Scenario.both_bound ++ [Send 2 (user_status "A" "offline")].
Proof. reflexivity. Qed.


(** ** Status updates, row by row *)

Lemma user_id_set_status u s r : user_id (set_status u s r) = user_id r.
Proof. unfold set_status. now destruct (user_id r =? u). Qed.

Lemma username_set_status u s r : username (set_status u s r) = username r.
Proof. unfold set_status. now destruct (user_id r =? u). Qed.

Lemma user_by_id_set_status_same u s rows row :
  find (fun r => user_id r =? u) rows = Some row ->
  find (fun r => user_id r =? u) (map (set_status u s) rows)
  = Some (mkUser (user_id row) (username row) (email row) (avatar row) s).
Proof.
  induction rows as [|r rows IH]; simpl; [discriminate|].
  rewrite user_id_set_status. destruct (user_id r =? u) eqn:E.
  - intros H. inversion H; subst. unfold set_status. now rewrite E.
  - exact IH.
Qed.

Lemma user_by_id_set_status_other u v s rows row :
  v <> u ->
  find (fun r => user_id r =? v) rows = row ->
  find (fun r => user_id r =? v) (map (set_status u s) rows) = row.
Proof.
  intros Hne. revert row. induction rows as [|r rows IH]; simpl; auto.
  intros row. rewrite user_id_set_status. destruct (user_id r =? v) eqn:E; auto.
  intros <-. unfold set_status. destruct (user_id r =? u) eqn:E'; auto.
  apply String.eqb_eq in E, E'. congruence.
Qed.

Lemma set_status_absent u s rows :
  find (fun r => user_id r =? u) rows = None -> map (set_status u s) rows = rows.
Proof.
  induction rows as [|r rows IH]; simpl; auto.
  destruct (user_id r =? u) eqn:E; [discriminate|].
  intros H. unfold set_status at 1. rewrite E. f_equal. auto.
Qed.

(** ** Session bind *)

(** C8, as the code has it: when the store accepts the status update, an
    [auth] frame performs, in this order: the registry write for the
    identity and this socket, the store's status update to online, the
    broadcast of (identity, online) to the other registered connections
    whose socket is open, and the [auth_success] frame on the same socket.
    Afterwards the identity maps to this socket and its user row, if it has
    one, reads online with its other columns as before, while every other
    identity's row is as it was. *)
Theorem auth_effects_in_order ws u w :
  sqlite_err w OpUpdateUserStatus = None ->
  trace (on_message ws (Json (Auth u)) w)
  = trace w
    ++ [RegistrySet u ws; StoreUpdateUserStatus u "online" true]
    ++ map (fun h => Send h (user_status u "online"))
           (status_peers (JsMap.set u ws (connections w)) u (readyState w))
    ++ [Send ws auth_success]
  /\ connections (on_message ws (Json (Auth u)) w) = JsMap.set u ws (connections w)
  /\ (forall row, user_by_id u (db w) = Some row ->
        user_by_id u (db (on_message ws (Json (Auth u)) w))
        = Some (mkUser (user_id row) (username row) (email row) (avatar row)
                       "online"))
  /\ (forall v, v <> u ->
        user_by_id v (db (on_message ws (Json (Auth u)) w)) = user_by_id v (db w)).
Proof.
  intros Hok. rewrite (auth_run ws u w Hok). simpl.
  split; [reflexivity|]. split; [reflexivity|]. unfold user_by_id. simpl. split.
  - intros row Hrow. now apply user_by_id_set_status_same.
  - intros v Hv. now apply user_by_id_set_status_other.
Qed.

Lemma auth_effects_in_order_witness :
  sqlite_err (on_connection 2 Scenario.a_bound) OpUpdateUserStatus = None /\
  trace Scenario.both_bound
  = trace (on_connection 2 Scenario.a_bound)
    ++ [RegistrySet "B" 2; StoreUpdateUserStatus "B" "online" true]
    ++ [Send 1 (user_status "B" "online")]
    ++ [Send 2 auth_success]
  /\ connections Scenario.both_bound = [("A", 1); ("B", 2)]
  /\ (forall row, user_by_id "B" (db (on_connection 2 Scenario.a_bound)) = Some row ->
        user_by_id "B" (db Scenario.both_bound)
        = Some (mkUser (user_id row) (username row) (email row) (avatar row)
                       "online"))
  /\ (forall v, v <> "B" ->
        user_by_id v (db Scenario.both_bound)
        = user_by_id v (db (on_connection 2 Scenario.a_bound))).
Proof.
  split; [reflexivity|].
  apply (auth_effects_in_order 2 "B" (on_connection 2 Scenario.a_bound)).
  reflexivity.
Defined.

(** C8, as stated, fails on two counts. When the store rejects the status
    update, the [auth] frame of [A] on socket 1 performs the registry write
    and the refused store call, then the catch block answers with an error
    frame: there is no broadcast and no [auth_success]. And when the store
    accepts it while [B] is registered on socket 2, which is closing, the
    broadcast writes nothing to that registered connection. *)
Lemma auth_effects_can_stop_short :
  (sqlite_err Scenario.connected_busy OpUpdateUserStatus
   = Some "SQLITE_BUSY: database is locked" /\
   trace (on_message 1 (Json (Auth "A")) Scenario.connected_busy)
   = [RegistrySet "A" 1; StoreUpdateUserStatus "A" "online" false;
      ConsoleError "SQLITE_BUSY: database is locked";
      Send 1 (error "SQLITE_BUSY: database is locked")] /\
   ~ In (Send 1 auth_success)
        (trace (on_message 1 (Json (Auth "A")) Scenario.connected_busy))) /\
  (sqlite_err Scenario.b_closing OpUpdateUserStatus = None /\
   In ("B", 2) (connections Scenario.b_closing) /\ "B" <> "A" /\
   trace (on_message 1 (Json (Auth "A")) Scenario.b_closing)
   = trace Scenario.b_closing
     ++ [RegistrySet "A" 1; StoreUpdateUserStatus "A" "online" true;
         Send 1 auth_success] /\
   frames_to 2 (trace (on_message 1 (Json (Auth "A")) Scenario.b_closing))
   = frames_to 2 (trace Scenario.b_closing)).
Proof.
  split.
  - split; [reflexivity|]. split; [reflexivity|].
    vm_compute. intros [H|[H|[H|[H|[]]]]]; discriminate.
  - split; [reflexivity|]. split; [right; left; reflexivity|].
    split; [discriminate|]. split; reflexivity.
Qed.

(** ** Call signalling *)

(** C6: a [call_offer] whose target has no registry entry, or an entry
    whose socket is not open, makes the relay write exactly one frame:
    [call_error] with "User is offline" on the sender's socket. Nothing is
    forwarded and nothing else changes. *)
Theorem call_offer_offline ws target offer callerId callerName conv isVideo w :
  openSocket target w = None ->
  on_message ws (Json (CallOffer target offer callerId callerName conv isVideo)) w
  = append_trace [Send ws (call_error "User is offline")] w /\
  sends (trace (on_message ws
           (Json (CallOffer target offer callerId callerName conv isVideo)) w))
  = sends (trace w) ++ [(ws, call_error "User is offline")].
Proof.
  intros Hoff.
  assert (E : on_message ws
                (Json (CallOffer target offer callerId callerName conv isVideo)) w
              = append_trace [Send ws (call_error "User is offline")] w).
  { unfold on_message, try_block, dispatch. now rewrite Hoff. }
  split; [exact E|]. rewrite E. simpl. now rewrite sends_app.
Qed.

Lemma call_offer_offline_witness :
  openSocket "B" Scenario.a_bound = None /\
  on_message 1 (Json (CallOffer "B" "sdp" "A" "alice" "C" "false")) Scenario.a_bound
  = append_trace [Send 1 (call_error "User is offline")] Scenario.a_bound /\
  sends (trace (on_message 1
           (Json (CallOffer "B" "sdp" "A" "alice" "C" "false")) Scenario.a_bound))
  = sends (trace Scenario.a_bound) ++ [(1, call_error "User is offline")].
Proof.
  split; [reflexivity|].
  apply (call_offer_offline 1 "B" "sdp" "A" "alice" "C" "false" Scenario.a_bound).
  reflexivity.
Defined.

(** C7: a [call_answer], [ice_candidate], [call_end] or [call_reject] frame
    whose target ([callerId] or [targetUserId], by kind) has no registry
    entry with an open socket leaves the world as it was: no frame is
    written to any socket, the sender's included. *)
Theorem signalling_to_unreachable_is_dropped ws f target w :
  silent_target f = Some target ->
  openSocket target w = None ->
  on_message ws (Json f) w = w /\
  sends (trace (on_message ws (Json f) w)) = sends (trace w).
Proof.
  intros Hf Hoff.
  assert (E : on_message ws (Json f) w = w).
  { destruct f; simpl in Hf; try discriminate; inversion Hf; subst;
      unfold on_message, try_block, dispatch, forward; now rewrite Hoff. }
  split; [exact E|]. now rewrite E.
Qed.

Lemma signalling_to_unreachable_is_dropped_witness :
  silent_target (CallAnswer "B" "sdp" "A") = Some "B" /\
  openSocket "B" Scenario.b_closing = None /\
  on_message 1 (Json (CallAnswer "B" "sdp" "A")) Scenario.b_closing
  = Scenario.b_closing /\
  sends (trace (on_message 1 (Json (CallAnswer "B" "sdp" "A")) Scenario.b_closing))
  = sends (trace Scenario.b_closing).
Proof.
  split; [reflexivity|]. split; [reflexivity|].
  apply (signalling_to_unreachable_is_dropped 1 _ "B" Scenario.b_closing);
    reflexivity.
Defined.

(** ** The try/catch of the message handler *)

Lemma append_trace_append es1 es2 w :
  append_trace es2 (append_trace es1 w) = append_trace (es1 ++ es2) w.
Proof. unfold append_trace; simpl. now rewrite app_assoc. Qed.

Lemma on_message_thrown ws data w msg w1 :
  try_block ws data w = (Thrown msg, w1) ->
  on_message ws data w = append_trace [ConsoleError msg; Send ws (error msg)] w1.
Proof.
  intros E. unfold on_message. rewrite E.
  unfold bind, send, emit, log, append_trace. simpl.
  now rewrite <- app_assoc.
Qed.

Lemma on_message_returned ws data w w1 :
  try_block ws data w = (Returned tt, w1) -> on_message ws data w = w1.
Proof. intros E. unfold on_message. now rewrite E. Qed.

Lemma sends_stores_only t es :
  (forall e, In e es -> forall h f, e <> Send h f) ->
  sends (t ++ es) = sends t.
Proof.
  intros H. rewrite sends_app.
  assert (E : sends es = []).
  { induction es as [|e es IH]; auto.
    destruct e; simpl; try (apply IH; intros; apply H; now right).
    exfalso. eapply H; [now left|reflexivity]. }
  rewrite E. apply app_nil_r.
Qed.

Ltac no_send :=
  simpl; rewrite <- ?app_assoc; simpl;
  first [ reflexivity
        | apply sends_stores_only; simpl; intros ? Hin ? ?;
          repeat (destruct Hin as [<-|Hin]; [discriminate|]); destruct Hin ].

(** When the [try] block raises, no frame has been written yet, no socket
    state has changed, and the registry differs only by the bind of an
    [auth] frame. *)
Lemma thrown_before_any_send ws data w msg w1 :
  try_block ws data w = (Thrown msg, w1) ->
  sends (trace w1) = sends (trace w) /\
  readyState w1 = readyState w /\
  ((forall u, data <> Json (Auth u)) -> connections w1 = connections w) /\
  (forall u, data = Json (Auth u) -> connections w1 = JsMap.set u ws (connections w)) /\
  (forall e, data = Malformed e -> w1 = w /\ msg = e).
Proof.
  intros H. destruct data as [e| |f].
  - simpl in H. inversion H; subst. repeat split; auto; intros; congruence.
  - simpl in H. inversion H; subst. repeat split; auto; intros; congruence.
  - destruct f as [u0|conv sender text mt|conv u0 t
                  |target offer callerId callerName conv isVideo
                  |callerId answer answererId|target candidate fromUserId
                  |target fromUserId|callerId rejecterId|ty]; simpl in H.
    + (* auth *)
      unfold bind, assign_userId, registry_set, updateUserStatus in H. simpl in H.
      destruct (sqlite_err w OpUpdateUserStatus) as [err|] eqn:E.
      * inversion H; subst. simpl. repeat split; try (intros; congruence).
        -- no_send.
        -- intros Hno. exfalso. now apply (Hno u0).
      * rewrite broadcastStatus_run in H. discriminate.
    + (* message *)
      pose proof (message_run ws conv sender text mt w) as E.
      cbv zeta in E. unfold dispatch in E. rewrite E in H. clear E.
      destruct (sqlite_err w OpCreateMessage);
        [|destruct (sqlite_err w OpGetConversationParticipants);
          [|destruct (sqlite_err w OpGetUserById);
            [|destruct (user_by_id sender (db w));
              [|destruct (existsb (reachable w)
                            (participants_of conv (db w)))]]]];
        try discriminate; inversion H; subst; simpl;
        (split; [no_send|]); repeat split; intros; congruence.
    + (* typing *)
      unfold bind, getConversationParticipants in H.
      destruct (sqlite_err w OpGetConversationParticipants) as [err|] eqn:E.
      * inversion H; subst. simpl.
        (split; [no_send|]); repeat split; intros; congruence.
      * match type of H with
        | context [forEach_typing ?ps ?c ?u ?t ?W] =>
            destruct (forEach_typing_returns ps c u t W) as [hs Ehs];
            rewrite Ehs in H
        end. discriminate.
    + destruct (openSocket target w); discriminate.
    + unfold forward in H. destruct (openSocket callerId w); discriminate.
    + unfold forward in H. destruct (openSocket target w); discriminate.
    + unfold forward in H. destruct (openSocket target w); discriminate.
    + unfold forward in H. destruct (openSocket callerId w); discriminate.
    + discriminate.
Qed.

Lemma raised_thrown ws data w msg :
  raised ws data w = Some msg ->
  try_block ws data w = (Thrown msg, snd (try_block ws data w)).
Proof.
  unfold raised. destruct (try_block ws data w) as [[a|m] w1]; simpl;
    intros H; inversion H; subst; reflexivity.
Qed.

(** C5, as the code has it: when the payload does not parse, or handling
    raises, exactly one frame is written, the [error] frame with the
    exception's message on the same socket; no socket's state changes; no
    frame goes to any other socket. The registry is unchanged, except that
    the bind of an [auth] frame whose store update fails stays in place.
    After a payload that does not parse, the world differs from the one
    before by the log line and the error frame alone. *)
Theorem exception_yields_one_error_frame ws data w msg :
  raised ws data w = Some msg ->
  sends (trace (on_message ws data w)) = sends (trace w) ++ [(ws, error msg)] /\
  readyState (on_message ws data w) = readyState w /\
  ((forall u, data <> Json (Auth u)) ->
     connections (on_message ws data w) = connections w) /\
  (forall u, data = Json (Auth u) ->
     connections (on_message ws data w) = JsMap.set u ws (connections w)) /\
  (forall e, data = Malformed e ->
     on_message ws data w = append_trace [ConsoleError e; Send ws (error e)] w).
Proof.
  intros Hr. apply raised_thrown in Hr.
  set (w1 := snd (try_block ws data w)) in Hr.
  rewrite (on_message_thrown ws data w msg w1 Hr).
  destruct (thrown_before_any_send ws data w msg w1 Hr) as (Hs & Hrs & Hc & Ha & Hm).
  simpl. repeat split; auto.
  - rewrite sends_app, Hs. reflexivity.
  - intros e He. destruct (Hm e He) as [-> ->]. reflexivity.
Qed.

Lemma exception_yields_one_error_frame_witness :
  raised 2 (Malformed "Unexpected token h in JSON at position 1") Scenario.both_bound
  = Some "Unexpected token h in JSON at position 1" /\
  sends (trace (on_message 2 (Malformed "Unexpected token h in JSON at position 1")
                           Scenario.both_bound))
  = sends (trace Scenario.both_bound)
    ++ [(2, error "Unexpected token h in JSON at position 1")] /\
  readyState (on_message 2 (Malformed "Unexpected token h in JSON at position 1")
                         Scenario.both_bound)
  = readyState Scenario.both_bound /\
  ((forall u, Malformed "Unexpected token h in JSON at position 1" <> Json (Auth u)) ->
     connections (on_message 2 (Malformed "Unexpected token h in JSON at position 1")
                             Scenario.both_bound)
     = connections Scenario.both_bound) /\
  (forall u, Malformed "Unexpected token h in JSON at position 1" = Json (Auth u) ->
     connections (on_message 2 (Malformed "Unexpected token h in JSON at position 1")
                             Scenario.both_bound)
     = JsMap.set u 2 (connections Scenario.both_bound)) /\
  (forall e, Malformed "Unexpected token h in JSON at position 1" = Malformed e ->
     on_message 2 (Malformed "Unexpected token h in JSON at position 1")
                Scenario.both_bound
     = append_trace [ConsoleError e; Send 2 (error e)] Scenario.both_bound).
Proof.
  split; [reflexivity|].
  apply (exception_yields_one_error_frame 2
           (Malformed "Unexpected token h in JSON at position 1")
           Scenario.both_bound "Unexpected token h in JSON at position 1").
  reflexivity.
Defined.

(** C5, as stated, fails: socket 1 sends an [auth] frame for [A] while the
    store refuses the status update. Handling raises and the error frame is
    written, but the registry has gained the entry for [A]. *)
Lemma failed_auth_changes_registry :
  raised 1 (Json (Auth "A")) Scenario.connected_busy
  = Some "SQLITE_BUSY: database is locked" /\
  connections Scenario.connected_busy = [] /\
  connections (on_message 1 (Json (Auth "A")) Scenario.connected_busy) = [("A", 1)] /\
  connections (on_message 1 (Json (Auth "A")) Scenario.connected_busy)
  <> connections Scenario.connected_busy.
Proof. repeat split; try reflexivity. discriminate. Qed.

(** ** Message router *)

Lemma count_live_none ps w h :
  (forall p, In p ps -> openSocket p w <> Some h) ->
  count_occ Nat.eq_dec (live_sockets ps w) h = 0.
Proof.
  induction ps as [|p ps IH]; intros H; simpl; auto.
  destruct (openSocket p w) as [h'|] eqn:E.
  - simpl. destruct (Nat.eq_dec h' h) as [->|Hne].
    + exfalso. apply (H p); [now left|assumption].
    + apply IH. intros q Hq. apply H. now right.
  - apply IH. intros q Hq. apply H. now right.
Qed.

Lemma count_live_one ps w p h :
  NoDup ps -> In p ps -> openSocket p w = Some h ->
  (forall q, In q ps -> openSocket q w = Some h -> q = p) ->
  count_occ Nat.eq_dec (live_sockets ps w) h = 1.
Proof.
  induction ps as [|a ps IH]; intros Hnd Hin Hp Huniq; [destruct Hin|].
  inversion Hnd as [|? ? Hnotin Hnd']; subst. simpl.
  destruct Hin as [->|Hin].
  - rewrite Hp. simpl. destruct (Nat.eq_dec h h) as [_|Hne]; [|congruence].
    f_equal. apply count_live_none. intros q Hq Hqh.
    assert (q = p) by (apply Huniq; [now right|assumption]). subst q. contradiction.
  - destruct (openSocket a w) as [h'|] eqn:E.
    + simpl. destruct (Nat.eq_dec h' h) as [->|Hne].
      * assert (a = p) by (apply Huniq; [now left|assumption]). subst a. contradiction.
      * apply IH; auto. intros q Hq. apply Huniq. now right.
    + apply IH; auto. intros q Hq. apply Huniq. now right.
Qed.



Lemma NoDup_participants_C : NoDup (participants_of "C" (db Scenario.both_bound)).
Proof.
  change (NoDup ["A"; "B"]). constructor.
  - intros [H|[]]. discriminate.
  - constructor; [intros []|constructor].
Defined.



Lemma head_of_split {A} (e x : A) l pre post :
  e :: l = pre ++ x :: post -> e <> x ->
  exists pre', pre = e :: pre'.
Proof.
  intros H Hne. destruct pre as [|a pre'].
  - simpl in H. inversion H. congruence.
  - simpl in H. inversion H; subst. now exists pre'.
Qed.

Ltac not_among Hin :=
  simpl in Hin;
  repeat (destruct Hin as [Hin|Hin]; [discriminate Hin|]); try destruct Hin.

(** C3: while a [message] frame is handled, every [new_message] frame is
    written after the store has accepted the insert and carries a record
    that is in the store; and when the store refuses the insert, the one
    frame written is the [error] frame on the sender's socket and the store
    is as before. *)
Theorem persist_before_fanout ws conv sender text mt w :
  exists delta,
    trace (on_message ws (Json (Message conv sender text mt)) w) = trace w ++ delta /\
    (forall pre h r name post,
        delta = pre ++ Send h (new_message r name) :: post ->
        In (StoreCreateMessage conv sender text (messageType_or_text mt) true) pre /\
        In r (messages (db (on_message ws (Json (Message conv sender text mt)) w)))) /\
    (forall err,
        sqlite_err w OpCreateMessage = Some err ->
        sends delta = [(ws, error err)] /\
        db (on_message ws (Json (Message conv sender text mt)) w) = db w).
Proof.
  pose proof (message_run ws conv sender text mt w) as E. cbv zeta in E.
  change (dispatch ws (Message conv sender text mt) w)
    with (try_block ws (Json (Message conv sender text mt)) w) in E.
  set (ty := messageType_or_text mt) in *.
  set (r0 := new_record conv sender text ty w) in *.
  set (ps := participants_of conv (db w)) in *.
  assert (Hsplit : forall tl pre h r name post,
             StoreCreateMessage conv sender text ty true :: tl
             = pre ++ Send h (new_message r name) :: post ->
             In (StoreCreateMessage conv sender text ty true) pre).
  { intros tl pre h r name post H.
    destruct (head_of_split _ _ _ _ _ H) as [pre' ->]; [discriminate|now left]. }
  destruct (sqlite_err w OpCreateMessage) as [err|] eqn:Ec;
    [|destruct (sqlite_err w OpGetConversationParticipants) as [err|] eqn:Ep;
      [|destruct (sqlite_err w OpGetUserById) as [err|] eqn:Eu;
        [|destruct (user_by_id sender (db w)) as [row|] eqn:Erow;
          [|destruct (existsb (reachable w) ps) eqn:Elive]]]].
  - (* the insert is refused *)
    rewrite (on_message_thrown _ _ _ _ _ E), append_trace_append.
    eexists. split; [reflexivity|]. split.
    + intros pre h r name post H.
      assert (Hin : In (Send h (new_message r name))
                       (pre ++ Send h (new_message r name) :: post))
        by (apply in_elt).
      rewrite <- H in Hin. not_among Hin.
    + intros err' Herr. inversion Herr; subst. split; reflexivity.
  - (* the participants query is refused *)
    rewrite (on_message_thrown _ _ _ _ _ E), append_trace_append.
    eexists. split; [reflexivity|]. split; [|discriminate].
    intros pre h r name post H.
    assert (Hin : In (Send h (new_message r name))
                     (pre ++ Send h (new_message r name) :: post))
      by (apply in_elt).
    rewrite <- H in Hin. not_among Hin.
  - (* the sender query is refused *)
    rewrite (on_message_thrown _ _ _ _ _ E), append_trace_append.
    eexists. split; [reflexivity|]. split; [|discriminate].
    intros pre h r name post H.
    assert (Hin : In (Send h (new_message r name))
                     (pre ++ Send h (new_message r name) :: post))
      by (apply in_elt).
    rewrite <- H in Hin. not_among Hin.
  - (* fan-out *)
    rewrite (on_message_returned _ _ _ _ E).
    eexists. split; [reflexivity|]. split; [|discriminate].
    intros pre h r name post H. split; [eapply Hsplit; exact H|].
    assert (Hin : In (Send h (new_message r name))
                     (pre ++ Send h (new_message r name) :: post))
      by (apply in_elt).
    rewrite <- H in Hin. simpl in Hin.
    destruct Hin as [Hin|[Hin|[Hin|Hin]]]; try discriminate Hin.
    apply in_map_iff in Hin. destruct Hin as [h' [Hh' _]].
    inversion Hh'; subst. simpl. apply in_elt.
  - (* no sender row, some participant reachable *)
    rewrite (on_message_thrown _ _ _ _ _ E), append_trace_append.
    eexists. split; [reflexivity|]. split; [|discriminate].
    intros pre h r name post H.
    assert (Hin : In (Send h (new_message r name))
                     (pre ++ Send h (new_message r name) :: post))
      by (apply in_elt).
    rewrite <- H in Hin. not_among Hin.
  - (* no sender row, nobody reachable *)
    rewrite (on_message_returned _ _ _ _ E).
    eexists. split; [reflexivity|]. split; [|discriminate].
    intros pre h r name post H.
    assert (Hin : In (Send h (new_message r name))
                     (pre ++ Send h (new_message r name) :: post))
      by (apply in_elt).
    rewrite <- H in Hin. not_among Hin.
Qed.

Lemma persist_before_fanout_witness :
  sqlite_err Scenario.both_bound_readonly OpCreateMessage
  = Some "SQLITE_READONLY: attempt to write a readonly database" /\
  exists delta,
    trace (on_message 1 (Json (Message "C" "A" "hi" None)) Scenario.both_bound_readonly)
    = trace Scenario.both_bound_readonly ++ delta /\
    (forall pre h r name post,
        delta = pre ++ Send h (new_message r name) :: post ->
        In (StoreCreateMessage "C" "A" "hi" (messageType_or_text None) true) pre /\
        In r (messages (db (on_message 1 (Json (Message "C" "A" "hi" None))
                                       Scenario.both_bound_readonly)))) /\
    (forall err,
        sqlite_err Scenario.both_bound_readonly OpCreateMessage = Some err ->
        sends delta = [(1, error err)] /\
        db (on_message 1 (Json (Message "C" "A" "hi" None)) Scenario.both_bound_readonly)
        = db Scenario.both_bound_readonly).
Proof.
  split; [reflexivity|].
  apply (persist_before_fanout 1 "C" "A" "hi" None Scenario.both_bound_readonly).
Defined.

(** The two runs side by side: with a healthy store the insert precedes the
    two frames; with a read-only store the sender alone hears of it. *)
Example hi_on_healthy_store :
  trace (on_message 1 (Json Scenario.hi) Scenario.both_bound)
  = trace Scenario.both_bound
    ++ [StoreCreateMessage "C" "A" "hi" "text" true;
        StoreGetConversationParticipants "C" true;
        StoreGetUserById "A" true;
        Send 1 (new_message Scenario.hi_record "alice");
        Send 2 (new_message Scenario.hi_record "alice")].
Proof. reflexivity. Qed.

Example hi_on_readonly_store :
  trace (on_message 1 (Json Scenario.hi) Scenario.both_bound_readonly)
  = trace Scenario.both_bound_readonly
    ++ [StoreCreateMessage "C" "A" "hi" "text" false;
        ConsoleError "SQLITE_READONLY: attempt to write a readonly database";
        Send 1 (error "SQLITE_READONLY: attempt to write a readonly database")].
Proof. reflexivity. Qed.

(** C10: when the insert and both queries succeed but the sender has no
    user row, the record stays in the store, no [new_message] frame is
    written, and the frames written are exactly one [error] frame on the
    sender's socket when some participant has an open socket, none at all
    otherwise. *)
Theorem persisted_without_fanout ws conv sender text mt w :
  sqlite_err w OpCreateMessage = None ->
  sqlite_err w OpGetConversationParticipants = None ->
  sqlite_err w OpGetUserById = None ->
  user_by_id sender (db w) = None ->
  exists r delta,
    trace (on_message ws (Json (Message conv sender text mt)) w) = trace w ++ delta /\
    messages (db (on_message ws (Json (Message conv sender text mt)) w))
    = messages (db w) ++ [r] /\
    content r = text /\ senderId r = sender /\
    (forall h f, In (h, f) (sends delta) -> is_new_message f = false) /\
    sends delta
    = if existsb (reachable w) (participants_of conv (db w))
      then [(ws, error typeError_username)]
      else [].
Proof.
  intros Hc Hp Hu Hrow.
  pose proof (message_run ws conv sender text mt w) as E. cbv zeta in E.
  change (dispatch ws (Message conv sender text mt) w)
    with (try_block ws (Json (Message conv sender text mt)) w) in E.
  rewrite Hc, Hp, Hu, Hrow in E.
  exists (new_record conv sender text (messageType_or_text mt) w).
  destruct (existsb (reachable w) (participants_of conv (db w))).
  - rewrite (on_message_thrown _ _ _ _ _ E), append_trace_append.
    eexists. split; [reflexivity|]. simpl.
    repeat split; try reflexivity.
    intros h f [Hin|[]]. inversion Hin; subst. reflexivity.
  - rewrite (on_message_returned _ _ _ _ E).
    eexists. split; [reflexivity|]. simpl.
    repeat split; try reflexivity.
    intros h f [].
Qed.

Lemma persisted_without_fanout_witness :
  sqlite_err Scenario.both_bound OpCreateMessage = None /\
  sqlite_err Scenario.both_bound OpGetConversationParticipants = None /\
  sqlite_err Scenario.both_bound OpGetUserById = None /\
  user_by_id "Z" (db Scenario.both_bound) = None /\
  exists r delta,
    trace (on_message 1 (Json (Message "C" "Z" "hi" None)) Scenario.both_bound)
    = trace Scenario.both_bound ++ delta /\
    messages (db (on_message 1 (Json (Message "C" "Z" "hi" None)) Scenario.both_bound))
    = messages (db Scenario.both_bound) ++ [r] /\
    content r = "hi" /\ senderId r = "Z" /\
    (forall h f, In (h, f) (sends delta) -> is_new_message f = false) /\
    sends delta
    = if existsb (reachable Scenario.both_bound)
                 (participants_of "C" (db Scenario.both_bound))
      then [(1, error typeError_username)]
      else [].
Proof.
  split; [reflexivity|]. split; [reflexivity|]. split; [reflexivity|].
  split; [reflexivity|].
  apply (persisted_without_fanout 1 "C" "Z" "hi" None Scenario.both_bound);
    reflexivity.
Defined.

(** * Beyond the relay's contract: the remaining cases and whole runs *)

(** ** The remaining cases of the switch *)

Lemma forEach_typing_run ps conv u t w :
  forEach_typing ps conv u t w
  = (Returned tt,
     append_trace
       (map (fun h => Send h (typing conv u t))
            (live_sockets (filter (fun p => negb (p =? u)) ps) w)) w).
Proof.
  revert w. induction ps as [|p ps IH]; intros w.
  - simpl. now rewrite append_trace_nil.
  - simpl. unfold bind. destruct (negb (p =? u)); simpl.
    + destruct (openSocket p w) as [h|]; simpl.
      * rewrite IH, live_sockets_log. simpl. now rewrite append_trace_log.
      * now rewrite IH.
    + now rewrite IH.
Qed.

Lemma typing_run ws conv u t w :
  on_message ws (Json (Typing conv u t)) w
  = match sqlite_err w OpGetConversationParticipants with
    | Some err =>
        append_trace [StoreGetConversationParticipants conv false;
                      ConsoleError err; Send ws (error err)] w
    | None =>
        append_trace
          (StoreGetConversationParticipants conv true
           :: map (fun h => Send h (typing conv u t))
                  (live_sockets (filter (fun p => negb (p =? u))
                                        (participants_of conv (db w))) w)) w
    end.
Proof.
  destruct (sqlite_err w OpGetConversationParticipants) as [err|] eqn:E.
  - rewrite (on_message_thrown ws _ w err
               (append_trace [StoreGetConversationParticipants conv false] w)).
    + now rewrite append_trace_append.
    + unfold try_block, dispatch, bind, getConversationParticipants.
      now rewrite E.
  - apply on_message_returned.
    unfold try_block, dispatch, bind, getConversationParticipants. rewrite E.
    rewrite forEach_typing_run, live_sockets_log, append_trace_log. reflexivity.
Qed.

Lemma message_cases ws conv sender text mt w :
  let ty := messageType_or_text mt in
  let r := new_record conv sender text ty w in
  let ps := participants_of conv (db w) in
  on_message ws (Json (Message conv sender text mt)) w
  = match sqlite_err w OpCreateMessage with
    | Some err =>
        append_trace [StoreCreateMessage conv sender text ty false;
                      ConsoleError err; Send ws (error err)] w
    | None =>
        match sqlite_err w OpGetConversationParticipants with
        | Some err =>
            append_trace [StoreCreateMessage conv sender text ty true;
                          StoreGetConversationParticipants conv false;
                          ConsoleError err; Send ws (error err)] (inserted r w)
        | None =>
            match sqlite_err w OpGetUserById with
            | Some err =>
                append_trace [StoreCreateMessage conv sender text ty true;
                              StoreGetConversationParticipants conv true;
                              StoreGetUserById sender false;
                              ConsoleError err; Send ws (error err)] (inserted r w)
            | None =>
                match user_by_id sender (db w) with
                | Some row =>
                    append_trace
                      ([StoreCreateMessage conv sender text ty true;
                        StoreGetConversationParticipants conv true;
                        StoreGetUserById sender true]
                       ++ map (fun h => Send h (new_message r (username row)))
                              (live_sockets ps w)) (inserted r w)
                | None =>
                    append_trace
                      ([StoreCreateMessage conv sender text ty true;
                        StoreGetConversationParticipants conv true;
                        StoreGetUserById sender true]
                       ++ (if existsb (reachable w) ps
                           then [ConsoleError typeError_username;
                                 Send ws (error typeError_username)]
                           else [])) (inserted r w)
                end
            end
        end
    end.
Proof.
  intros ty r ps.
  pose proof (message_run ws conv sender text mt w) as E. cbv zeta in E.
  change (dispatch ws (Message conv sender text mt) w)
    with (try_block ws (Json (Message conv sender text mt)) w) in E.
  fold ty in E. fold r in E. fold ps in E.
  destruct (sqlite_err w OpCreateMessage) as [err|];
    [|destruct (sqlite_err w OpGetConversationParticipants) as [err|];
      [|destruct (sqlite_err w OpGetUserById) as [err|];
        [|destruct (user_by_id sender (db w)) as [row|];
          [|destruct (existsb (reachable w) ps)]]]];
    first [ rewrite (on_message_thrown _ _ _ _ _ E), append_trace_append; reflexivity
          | rewrite (on_message_returned _ _ _ _ E); reflexivity ].
Qed.

Lemma call_run ws f target out w :
  forwarded f = Some (target, out) ->
  on_message ws (Json f) w
  = match openSocket target w with
    | Some h => append_trace [Send h out] w
    | None =>
        match f with
        | CallOffer _ _ _ _ _ _ =>
            append_trace [Send ws (call_error "User is offline")] w
        | _ => w
        end
    end.
Proof.
  intros Hf.
  destruct f; simpl in Hf; try discriminate; inversion Hf; subst;
    unfold on_message, try_block, dispatch, forward;
    destruct (openSocket target w); reflexivity.
Qed.

Lemma not_forwarded_cases f :
  forwarded f = None ->
  (exists u, f = Auth u) \/ (exists c s t m, f = Message c s t m) \/
  (exists c u t, f = Typing c u t) \/ (exists ty, f = Unrecognised ty).
Proof.
  destruct f; simpl; intros H; try discriminate; eauto 10.
Qed.

(** ** What one frame can touch *)

Lemma get_In k v m : JsMap.get k m = Some v -> In (k, v) m.
Proof.
  induction m as [|[k' v'] m IH]; simpl; [discriminate|].
  destruct (k' =? k) eqn:E.
  - intros H. inversion H; subst. apply String.eqb_eq in E. subst. now left.
  - intros H. right. auto.
Qed.

Lemma in_set_other u ws m id h :
  In (id, h) (JsMap.set u ws m) -> id <> u -> In (id, h) m.
Proof.
  induction m as [|[k' v'] m IH]; simpl; intros Hin Hne.
  - destruct Hin as [Hin|[]]. inversion Hin; subst. congruence.
  - destruct (k' =? u) eqn:E; simpl in Hin.
    + apply String.eqb_eq in E. subst k'.
      destruct Hin as [Hin|Hin]; [inversion Hin; subst; congruence|now right].
    + destruct Hin as [Hin|Hin]; [now left|right; auto].
Qed.

Lemma sends_of_frames (f : OutFrame) hs :
  sends (map (fun h => Send h f) hs) = map (fun h => (h, f)) hs.
Proof. induction hs as [|h hs IH]; simpl; congruence. Qed.

Lemma writable_self ws w : writable ws w ws.
Proof. now left. Qed.

Lemma in_live_sockets ps w h :
  In h (live_sockets ps w) <-> exists p, In p ps /\ openSocket p w = Some h.
Proof.
  induction ps as [|p ps IH]; simpl.
  - split; [intros []|intros [p [[] _]]].
  - destruct (openSocket p w) as [h'|] eqn:E; simpl; rewrite IH; split.
    + intros [->|[q [Hq Hh]]]; eauto.
    + intros [q [[->|Hq] Hh]]; [left; congruence|right; eauto].
    + intros [q [Hq Hh]]; eauto.
    + intros [q [[->|Hq] Hh]]; [congruence|eauto].
Qed.

Lemma sound_frames ws w d (f : OutFrame) hs :
  (forall h, In h hs -> writable ws w h) -> recorded d f ->
  Forall (fun e => writable ws w (fst e) /\ recorded d (snd e))
         (sends (map (fun h => Send h f) hs)).
Proof.
  intros Hw Hr. rewrite sends_of_frames. apply Forall_forall. intros [h f'] Hin.
  apply in_map_iff in Hin. destruct Hin as [h' [Heq Hin]]. inversion Heq; subst.
  split; [now apply Hw|exact Hr].
Qed.

Lemma writable_live ws w ps h : In h (live_sockets ps w) -> writable ws w h.
Proof.
  intros Hin. apply in_live_sockets in Hin. destruct Hin as [p [_ Hp]].
  apply openSocket_Some in Hp. destruct Hp as [Hget Hopen].
  right. exists p. split; [now apply get_In|assumption].
Qed.

Lemma writable_peers ws w u h :
  In h (status_peers (JsMap.set u ws (connections w)) u (readyState w)) ->
  writable ws w h.
Proof.
  intros Hin. apply in_status_peers in Hin. destruct Hin as [id [Hin [Hne Hopen]]].
  right. exists id. split; [now apply (in_set_other u ws)|assumption].
Qed.

Ltac own_socket :=
  simpl; repeat constructor; simpl; apply writable_self.

(** Every way a frame can be handled, in one shape: the world before, with
    the registry and the store stepped as the frame's kind allows, and a
    run of effects appended whose writes go to writable sockets only and
    carry recorded messages only. *)
Lemma on_message_normal ws data w :
  exists delta w0,
    on_message ws data w = append_trace delta w0 /\
    trace w0 = trace w /\
    readyState w0 = readyState w /\
    sqlite_err w0 = sqlite_err w /\
    connections w0 = registry_after ws data (connections w) /\
    store_step data (db w) (db w0) /\
    Forall (fun e => writable ws w (fst e) /\ recorded (db w0) (snd e))
           (sends delta).
Proof.
  destruct data as [e| |f].
  - exists [ConsoleError e; Send ws (error e)], w.
    rewrite (on_message_thrown ws (Malformed e) w e w) by reflexivity.
    repeat split. own_socket.
  - exists [ConsoleError typeError_type; Send ws (error typeError_type)], w.
    rewrite (on_message_thrown ws JsonNull w typeError_type w) by reflexivity.
    repeat split. own_socket.
  - destruct (forwarded f) as [[target out]|] eqn:Hf.
    + (* signalling *)
      rewrite (call_run ws f target out w Hf).
      assert (Hreg : registry_after ws (Json f) (connections w) = connections w)
        by (destruct f; simpl in Hf; try discriminate; reflexivity).
      assert (Hst : store_step (Json f) (db w) (db w))
        by (destruct f; simpl in Hf; try discriminate; reflexivity).
      assert (Hout : recorded (db w) out)
        by (destruct f; simpl in Hf; try discriminate; inversion Hf; exact I).
      destruct (openSocket target w) as [h|] eqn:Ho.
      * exists [Send h out], w. repeat split; auto.
        simpl. constructor; [|constructor]. simpl. split; [|exact Hout].
        apply openSocket_Some in Ho. destruct Ho as [Hget Hopen].
        right. exists target. split; [now apply get_In|assumption].
      * destruct f; simpl in Hf; try discriminate;
          try (exists [], w; rewrite append_trace_nil; repeat split; auto;
               constructor).
        exists [Send ws (call_error "User is offline")], w.
        repeat split; auto. own_socket.
    + destruct (not_forwarded_cases f Hf)
        as [[u ->]|[[c [sd [t [m ->]]]]|[[c [u [t ->]]]|[ty ->]]]].
      * (* auth *)
        destruct (sqlite_err w OpUpdateUserStatus) as [err|] eqn:E.
        -- rewrite (auth_rejected ws u w err E).
           eexists. eexists. split; [reflexivity|].
           repeat split; simpl; auto; own_socket.
        -- rewrite (auth_run ws u w E).
           eexists. eexists. split; [reflexivity|].
           split; [reflexivity|]. split; [reflexivity|]. split; [reflexivity|].
           split; [reflexivity|]. split; [now right|].
           simpl. rewrite sends_app. apply Forall_app. split.
           ++ apply sound_frames; [apply writable_peers|exact I].
           ++ own_socket.
      * (* message *)
        pose proof (message_cases ws c sd t m w) as E. cbv zeta in E. rewrite E.
        clear E.
        assert (Hins : store_step (Json (Message c sd t m)) (db w)
                         (db (inserted (new_record c sd t (messageType_or_text m) w) w))).
        { right. eexists. split; [reflexivity|]. repeat split. }
        destruct (sqlite_err w OpCreateMessage) as [err|];
          [|destruct (sqlite_err w OpGetConversationParticipants) as [err|];
            [|destruct (sqlite_err w OpGetUserById) as [err|];
              [|destruct (user_by_id sd (db w)) as [row|];
                [|destruct (existsb (reachable w) (participants_of c (db w)))]]]];
          (eexists; eexists; split; [reflexivity|]);
          (split; [reflexivity|]); (split; [reflexivity|]);
          (split; [reflexivity|]); (split; [reflexivity|]);
          (split; [first [exact Hins | now left]|]);
          try own_socket.
        rewrite sends_app. apply Forall_app. split; [constructor|].
        apply sound_frames; [apply writable_live|]. simpl. apply in_elt.
      * (* typing *)
        rewrite typing_run.
        destruct (sqlite_err w OpGetConversationParticipants) as [err|].
        -- eexists. eexists. split; [reflexivity|].
           repeat split; simpl; auto; own_socket.
        -- eexists. eexists. split; [reflexivity|].
           split; [reflexivity|]. split; [reflexivity|]. split; [reflexivity|].
           split; [reflexivity|]. split; [reflexivity|].
           apply (sound_frames ws w (db w) (typing c u t));
             [apply writable_live|exact I].
      * (* no case matches *)
        exists [], w. rewrite append_trace_nil. repeat split; auto.
Qed.

Lemma on_message_footprint ws data w :
  readyState (on_message ws data w) = readyState w /\
  connections (on_message ws data w) = registry_after ws data (connections w) /\
  store_step data (db w) (db (on_message ws data w)).
Proof.
  destruct (on_message_normal ws data w)
    as (delta & w0 & -> & _ & Hr & _ & Hc & Hs & _).
  simpl. auto.
Qed.

(** X1: a frame's footprint. Whatever the data and whether or not handling
    raises, the handler changes no socket's state, writes to the registry
    only for an [auth] frame (the bind, made before anything can fail) and
    to the store only as [store_step] allows: a status set to online for
    [auth], one appended record for [message], nothing for typing,
    signalling, unknown or unparseable data. *)
Theorem frame_footprint ws data w :
  readyState (on_message ws data w) = readyState w /\
  connections (on_message ws data w) = registry_after ws data (connections w) /\
  store_step data (db w) (db (on_message ws data w)).
Proof. apply on_message_footprint. Qed.

(** ** Binding and unbinding *)

Lemma keys_set k v m :
  JsMap.keys (JsMap.set k v m)
  = if existsb (String.eqb k) (JsMap.keys m) then JsMap.keys m
    else JsMap.keys m ++ [k].
Proof.
  unfold JsMap.keys. induction m as [|[k' v'] m IH]; simpl; auto.
  rewrite (String.eqb_sym k k').
  destruct (k' =? k) eqn:E; simpl.
  - apply String.eqb_eq in E. now subst.
  - rewrite IH. now destruct (existsb (String.eqb k) (map fst m)).
Qed.

Lemma delete_absent k m : ~ In k (JsMap.keys m) -> JsMap.delete k m = m.
Proof.
  unfold JsMap.keys. induction m as [|[k' v'] m IH]; simpl; intros H; auto.
  destruct (k' =? k) eqn:E.
  - apply String.eqb_eq in E. subst. exfalso. apply H. now left.
  - f_equal. apply IH. intros Hin. apply H. now right.
Qed.

Lemma delete_set_fresh k v m :
  ~ In k (JsMap.keys m) -> JsMap.delete k (JsMap.set k v m) = m.
Proof.
  unfold JsMap.keys. induction m as [|[k' v'] m IH]; simpl; intros H.
  - now rewrite String.eqb_refl.
  - destruct (k' =? k) eqn:E.
    + apply String.eqb_eq in E. subst. exfalso. apply H. now left.
    + simpl. rewrite E. f_equal. apply IH. intros Hin. apply H. now right.
Qed.

Lemma auth_connections ws u w :
  connections (on_message ws (Json (Auth u)) w) = JsMap.set u ws (connections w).
Proof. apply (on_message_footprint ws (Json (Auth u)) w). Qed.

Lemma auth_userId ws u w : userId (on_message ws (Json (Auth u)) w) ws = Some u.
Proof.
  destruct (sqlite_err w OpUpdateUserStatus) as [err|] eqn:E.
  - rewrite (auth_rejected ws u w err E). simpl. now rewrite Nat.eqb_refl.
  - rewrite (auth_run ws u w E). simpl. now rewrite Nat.eqb_refl.
Qed.

(** X3: the bind of an [auth] frame is last-wins and holds whether or not
    the store accepts the status update: the identity maps to the new
    socket, every other identity keeps its socket, an identity that was
    registered keeps its place in the iteration order, and a new one is
    appended. *)
Theorem auth_binds_last_wins ws u w :
  JsMap.get u (connections (on_message ws (Json (Auth u)) w)) = Some ws /\
  userId (on_message ws (Json (Auth u)) w) ws = Some u /\
  (forall k, k <> u ->
     JsMap.get k (connections (on_message ws (Json (Auth u)) w))
     = JsMap.get k (connections w)) /\
  (In u (JsMap.keys (connections w)) ->
     JsMap.keys (connections (on_message ws (Json (Auth u)) w))
     = JsMap.keys (connections w)) /\
  (~ In u (JsMap.keys (connections w)) ->
     JsMap.keys (connections (on_message ws (Json (Auth u)) w))
     = JsMap.keys (connections w) ++ [u]).
Proof.
  rewrite auth_connections. split; [apply JsMapFacts.get_set_same|].
  split; [apply auth_userId|]. split; [|split].
  - intros k Hk. now apply JsMapFacts.get_set_other.
  - intros Hin. rewrite keys_set.
    destruct (existsb (String.eqb u) (JsMap.keys (connections w))) eqn:E; auto.
    exfalso. assert (Hex : existsb (String.eqb u) (JsMap.keys (connections w)) = true).
    { apply existsb_exists. exists u. split; [assumption|apply String.eqb_refl]. }
    congruence.
  - intros Hnot. rewrite keys_set.
    destruct (existsb (String.eqb u) (JsMap.keys (connections w))) eqn:E; auto.
    exfalso. apply existsb_exists in E. destruct E as [x [Hx Heq]].
    apply String.eqb_eq in Heq. subst. contradiction.
Qed.

(** X4: bind then close is a round trip on the registry. When an identity
    that is not registered binds on a socket and that socket then closes,
    the registry is the one before the bind. *)
Theorem bind_then_close_restores_registry ws u w :
  truthy u = true -> ~ In u (JsMap.keys (connections w)) ->
  connections (transport_close ws (on_message ws (Json (Auth u)) w))
  = connections w.
Proof.
  intros Ht Hfresh. unfold transport_close.
  rewrite (on_close_connections ws u); auto.
  - simpl. rewrite auth_connections. now apply delete_set_fresh.
  - simpl. apply auth_userId.
Qed.

Lemma bind_then_close_restores_registry_witness :
  truthy "B" = true /\ ~ In "B" (JsMap.keys (connections Scenario.a_bound)) /\
  connections (transport_close 2 (on_message 2 (Json (Auth "B")) Scenario.a_bound))
  = connections Scenario.a_bound.
Proof.
  assert (Hfresh : ~ In "B" (JsMap.keys (connections Scenario.a_bound))).
  { intros [H|[]]. discriminate. }
  split; [reflexivity|]. split; [exact Hfresh|].
  apply (bind_then_close_restores_registry 2 "B" Scenario.a_bound);
    [reflexivity|exact Hfresh].
Defined.

(** The [close] handler, branch by branch. *)
Lemma on_close_run ws w :
  on_close ws w
  = match userId w ws with
    | Some u =>
        if truthy u then
          let w1 := with_connections (JsMap.delete u (connections w)) w in
          match sqlite_err w OpUpdateUserStatus with
          | Some err =>
              append_trace [RegistryDelete u;
                            StoreUpdateUserStatus u "offline" false] w1
          | None =>
              append_trace
                ([RegistryDelete u; StoreUpdateUserStatus u "offline" true]
                 ++ map (fun h => Send h (user_status u "offline"))
                        (status_peers (JsMap.delete u (connections w)) u
                                      (readyState w)))
                (with_db (mkDb (map (set_status u "offline") (users (db w)))
                               (conversation_participants (db w))
                               (messages (db w))) w1)
          end
        else w
    | None => w
    end.
Proof.
  unfold on_close. destruct (userId w ws) as [u|]; [|reflexivity].
  destruct (truthy u); [|reflexivity].
  unfold bind at 1. unfold registry_delete.
  unfold bind at 1. unfold updateUserStatus. simpl.
  destruct (sqlite_err w OpUpdateUserStatus) as [err|]; simpl.
  - unfold append_trace, log. simpl. now rewrite <- app_assoc.
  - rewrite broadcastStatus_run. simpl.
    unfold append_trace, log. simpl. now repeat rewrite <- app_assoc.
Qed.

Lemma in_delete u m id h :
  In (id, h) (JsMap.delete u m) <-> In (id, h) m /\ id <> u.
Proof.
  induction m as [|[k' v'] m IH]; simpl.
  - tauto.
  - destruct (k' =? u) eqn:E.
    + apply String.eqb_eq in E. subst k'. rewrite IH. split.
      * intros [H1 H2]. auto.
      * intros [[H1|H1] H2]; [inversion H1; subst; congruence|auto].
    + apply String.eqb_neq in E. simpl. rewrite IH. split.
      * intros [H1|[H1 H2]]; [inversion H1; subst; auto|auto].
      * intros [[H1|H1] H2]; auto.
Qed.

(** X5: teardown of a bound connection when the store accepts the update.
    The effects are, in order, the registry delete, the store's status
    update to offline, and exactly one [user_status] (identity, offline)
    frame per remaining registry entry of another identity whose socket is
    open, in registry order. Afterwards the identity is not registered and
    its user row (if any) reads offline. *)
Theorem close_announces_offline ws u w :
  userId w ws = Some u -> truthy u = true ->
  sqlite_err w OpUpdateUserStatus = None ->
  trace (on_close ws w)
  = trace w
    ++ [RegistryDelete u; StoreUpdateUserStatus u "offline" true]
    ++ map (fun e => Send (snd e) (user_status u "offline"))
           (filter (fun e => negb (fst e =? u) && isOpen (readyState w (snd e)))
                   (JsMap.delete u (connections w))) /\
  (forall id h, In (id, h) (JsMap.delete u (connections w)) <->
                In (id, h) (connections w) /\ id <> u) /\
  JsMap.get u (connections (on_close ws w)) = None /\
  (forall row, user_by_id u (db w) = Some row ->
     user_by_id u (db (on_close ws w))
     = Some (mkUser (user_id row) (username row) (email row) (avatar row)
                    "offline")).
Proof.
  intros Hu Ht Hok. rewrite on_close_run, Hu, Ht, Hok. cbv zeta.
  simpl. split; [|split; [|split]].
  - unfold status_peers. now rewrite map_map.
  - intros id h. apply in_delete.
  - apply JsMapFacts.get_delete_same.
  - intros row Hrow. unfold user_by_id in *. simpl.
    now apply user_by_id_set_status_same.
Qed.

Lemma close_announces_offline_witness :
  userId Trio.three_bound 1 = Some "A" /\ truthy "A" = true /\
  sqlite_err Trio.three_bound OpUpdateUserStatus = None /\
  trace (on_close 1 Trio.three_bound)
  = trace Trio.three_bound
    ++ [RegistryDelete "A"; StoreUpdateUserStatus "A" "offline" true]
    ++ [Send 2 (user_status "A" "offline"); Send 3 (user_status "A" "offline")] /\
  (forall id h, In (id, h) (JsMap.delete "A" (connections Trio.three_bound)) <->
                In (id, h) (connections Trio.three_bound) /\ id <> "A") /\
  JsMap.get "A" (connections (on_close 1 Trio.three_bound)) = None /\
  (forall row, user_by_id "A" (db Trio.three_bound) = Some row ->
     user_by_id "A" (db (on_close 1 Trio.three_bound))
     = Some (mkUser (user_id row) (username row) (email row) (avatar row)
                    "offline")).
Proof.
  split; [reflexivity|]. split; [reflexivity|]. split; [reflexivity|].
  apply (close_announces_offline 1 "A" Trio.three_bound); reflexivity.
Defined.

Lemma on_close_is_close_handler ws w : on_close ws w = snd (close_handler ws w).
Proof.
  unfold on_close, close_handler. destruct (userId w ws) as [u|]; [|reflexivity].
  now destruct (truthy u).
Qed.

(** X6: teardown when the store rejects the status update. The promise of
    the [close] handler rejects with the store's error, and nothing in the
    handler catches it. By then the registry entry has been deleted and the
    refused store call made, and that is all: no peer has been written a
    frame and the store holds the status it had. *)
Theorem close_with_failing_store_rejects ws u w err :
  userId w ws = Some u -> truthy u = true ->
  sqlite_err w OpUpdateUserStatus = Some err ->
  close_handler ws w
  = (Thrown err,
     append_trace [RegistryDelete u; StoreUpdateUserStatus u "offline" false]
                  (with_connections (JsMap.delete u (connections w)) w)) /\
  JsMap.get u (connections (snd (close_handler ws w))) = None /\
  sends (trace (snd (close_handler ws w))) = sends (trace w) /\
  db (snd (close_handler ws w)) = db w.
Proof.
  intros Hu Ht Herr.
  assert (E : close_handler ws w
              = (Thrown err,
                 append_trace [RegistryDelete u;
                               StoreUpdateUserStatus u "offline" false]
                              (with_connections (JsMap.delete u (connections w)) w))).
  { unfold close_handler. rewrite Hu, Ht.
    unfold bind at 1. unfold registry_delete.
    unfold bind at 1. unfold updateUserStatus. simpl. rewrite Herr.
    unfold append_trace, log. simpl. now rewrite <- app_assoc. }
  rewrite E. simpl. split; [reflexivity|].
  split; [apply JsMapFacts.get_delete_same|]. split; [|reflexivity].
  rewrite sends_app. simpl. apply app_nil_r.
Qed.

Lemma close_with_failing_store_rejects_witness :
  userId (on_message 1 (Json (Auth "A")) Scenario.connected_busy) 1 = Some "A" /\
  truthy "A" = true /\
  sqlite_err (on_message 1 (Json (Auth "A")) Scenario.connected_busy)
             OpUpdateUserStatus
  = Some "SQLITE_BUSY: database is locked" /\
  close_handler 1 (on_message 1 (Json (Auth "A")) Scenario.connected_busy)
  = (Thrown "SQLITE_BUSY: database is locked",
     append_trace [RegistryDelete "A"; StoreUpdateUserStatus "A" "offline" false]
       (with_connections
          (JsMap.delete "A"
             (connections (on_message 1 (Json (Auth "A")) Scenario.connected_busy)))
          (on_message 1 (Json (Auth "A")) Scenario.connected_busy))) /\
  JsMap.get "A" (connections (snd
     (close_handler 1 (on_message 1 (Json (Auth "A")) Scenario.connected_busy))))
  = None /\
  sends (trace (snd
     (close_handler 1 (on_message 1 (Json (Auth "A")) Scenario.connected_busy))))
  = sends (trace (on_message 1 (Json (Auth "A")) Scenario.connected_busy)) /\
  db (snd (close_handler 1 (on_message 1 (Json (Auth "A")) Scenario.connected_busy)))
  = db (on_message 1 (Json (Auth "A")) Scenario.connected_busy).
Proof.
  split; [reflexivity|]. split; [reflexivity|]. split; [reflexivity|].
  apply (close_with_failing_store_rejects 1 "A"
           (on_message 1 (Json (Auth "A")) Scenario.connected_busy)
           "SQLITE_BUSY: database is locked"); reflexivity.
Defined.

(** ** Typing relay and signalling *)

Lemma frames_to_split ws t1 t2 :
  frames_to ws (t1 ++ t2) = frames_to ws t1 ++ frames_to ws t2.
Proof.
  induction t1 as [|e t1 IH]; simpl; auto.
  destruct e; simpl; auto.
  destruct (ws0 =? ws)%nat; simpl; now rewrite IH.
Qed.


(** X7: a [typing] frame whose participants query succeeds is relayed to
    every participant other than the declared [userId] who has an open
    socket, exactly one [typing] frame each (the socket must serve no other
    such participant); the declared sender's identity is skipped, nothing is
    persisted and the registry is untouched. *)
Theorem typing_relay ws conv u t w :
  sqlite_err w OpGetConversationParticipants = None ->
  NoDup (participants_of conv (db w)) ->
  db (on_message ws (Json (Typing conv u t)) w) = db w /\
  connections (on_message ws (Json (Typing conv u t)) w) = connections w /\
  exists delta,
    trace (on_message ws (Json (Typing conv u t)) w) = trace w ++ delta /\
    (forall p h,
        In p (participants_of conv (db w)) -> p <> u ->
        openSocket p w = Some h ->
        (forall q, In q (participants_of conv (db w)) -> q <> u ->
                   openSocket q w = Some h -> q = p) ->
        frames_to h delta = [typing conv u t]) /\
    (forall h,
        (forall p, In p (participants_of conv (db w)) -> p <> u ->
                   openSocket p w <> Some h) ->
        frames_to h delta = []).
Proof.
  intros Hok Hnd. rewrite typing_run, Hok. simpl.
  split; [reflexivity|]. split; [reflexivity|].
  eexists. split; [reflexivity|]. simpl.
  set (others := filter (fun p => negb (p =? u)) (participants_of conv (db w))).
  assert (Hin : forall p, In p others <->
                          In p (participants_of conv (db w)) /\ p <> u).
  { intros p. unfold others. rewrite filter_In. split.
    - intros [H1 H2]. split; [assumption|]. intros ->.
      now rewrite String.eqb_refl in H2.
    - intros [H1 H2]. split; [assumption|].
      apply String.eqb_neq in H2. now rewrite H2. }
  split.
  - intros p h Hp Hne Hopen Huniq. rewrite frames_to_map_send.
    rewrite (count_live_one others w p h); auto.
    + unfold others. now apply NoDup_filter.
    + now apply Hin.
    + intros q Hq Hqh. apply Hin in Hq. destruct Hq. now apply Huniq.
  - intros h Hnone. rewrite frames_to_map_send.
    rewrite (count_live_none others w h); auto.
    intros p Hp. apply Hin in Hp. destruct Hp. now apply Hnone.
Qed.

Lemma typing_relay_witness :
  sqlite_err Scenario.both_bound OpGetConversationParticipants = None /\
  NoDup (participants_of "C" (db Scenario.both_bound)) /\
  db (on_message 1 (Json (Typing "C" "A" "true")) Scenario.both_bound)
  = db Scenario.both_bound /\
  connections (on_message 1 (Json (Typing "C" "A" "true")) Scenario.both_bound)
  = connections Scenario.both_bound /\
  exists delta,
    trace (on_message 1 (Json (Typing "C" "A" "true")) Scenario.both_bound)
    = trace Scenario.both_bound ++ delta /\
    (forall p h,
        In p (participants_of "C" (db Scenario.both_bound)) -> p <> "A" ->
        openSocket p Scenario.both_bound = Some h ->
        (forall q, In q (participants_of "C" (db Scenario.both_bound)) -> q <> "A" ->
                   openSocket q Scenario.both_bound = Some h -> q = p) ->
        frames_to h delta = [typing "C" "A" "true"]) /\
    (forall h,
        (forall p, In p (participants_of "C" (db Scenario.both_bound)) -> p <> "A" ->
                   openSocket p Scenario.both_bound <> Some h) ->
        frames_to h delta = []).
Proof.
  split; [reflexivity|]. split; [exact NoDup_participants_C|].
  apply (typing_relay 1 "C" "A" "true" Scenario.both_bound);
    [reflexivity|exact NoDup_participants_C].
Defined.

(** X8: a signalling frame whose target has an open socket produces
    exactly one frame, on the target's socket, carrying the payload fields
    of the inbound frame unchanged ([call_end] leaves as [call_ended],
    [call_reject] as [call_rejected]). No other frame is written: the
    sender's socket is written nothing unless it is the target's socket
    itself, and neither the registry nor the store records anything about
    the call. *)
Theorem signalling_forwarded ws f target out h w :
  forwarded f = Some (target, out) ->
  openSocket target w = Some h ->
  on_message ws (Json f) w = append_trace [Send h out] w /\
  sends (trace (on_message ws (Json f) w)) = sends (trace w) ++ [(h, out)] /\
  frames_to ws (trace (on_message ws (Json f) w))
  = frames_to ws (trace w) ++ (if (h =? ws)%nat then [out] else []).
Proof.
  intros Hf Ho. rewrite (call_run ws f target out w Hf), Ho.
  split; [reflexivity|]. simpl. split; [now rewrite sends_app|].
  rewrite frames_to_split. simpl. now destruct (h =? ws)%nat.
Qed.

Lemma signalling_forwarded_witness :
  forwarded (CallEnd "B" "A") = Some ("B", call_ended "A") /\
  openSocket "B" Scenario.both_bound = Some 2 /\
  on_message 1 (Json (CallEnd "B" "A")) Scenario.both_bound
  = append_trace [Send 2 (call_ended "A")] Scenario.both_bound /\
  sends (trace (on_message 1 (Json (CallEnd "B" "A")) Scenario.both_bound))
  = sends (trace Scenario.both_bound) ++ [(2, call_ended "A")] /\
  frames_to 1 (trace (on_message 1 (Json (CallEnd "B" "A")) Scenario.both_bound))
  = frames_to 1 (trace Scenario.both_bound) ++ [].
Proof.
  split; [reflexivity|]. split; [reflexivity|].
  apply (signalling_forwarded 1 (CallEnd "B" "A") "B" (call_ended "A") 2
           Scenario.both_bound); reflexivity.
Defined.

(** A frame that names the sender's own identity as target comes back on
    the sender's socket. *)
Example call_end_to_oneself :
  sends (trace (on_message 1 (Json (CallEnd "A" "A")) Scenario.both_bound))
  = sends (trace Scenario.both_bound) ++ [(1, call_ended "A")].
Proof. reflexivity. Qed.

(** ** The store helpers *)

(** X9: [updateUserStatus] followed by [getUserById] reads back the row with
    the new status and every other column as before; the rows of other
    identities are read back unchanged. *)
Theorem status_round_trip u s w row :
  sqlite_err w OpUpdateUserStatus = None ->
  user_by_id u (db w) = Some row ->
  fst (updateUserStatus u s w) = Returned tt /\
  user_by_id u (db (snd (updateUserStatus u s w)))
  = Some (mkUser (user_id row) (username row) (email row) (avatar row) s) /\
  (forall v, v <> u ->
     user_by_id v (db (snd (updateUserStatus u s w))) = user_by_id v (db w)).
Proof.
  intros Hok Hrow. unfold updateUserStatus. rewrite Hok. simpl.
  split; [reflexivity|]. unfold user_by_id in *. simpl. split.
  - now apply user_by_id_set_status_same.
  - intros v Hv. now apply user_by_id_set_status_other.
Qed.

Lemma status_round_trip_witness :
  sqlite_err Scenario.start OpUpdateUserStatus = None /\
  user_by_id "B" (db Scenario.start) = Some Scenario.bob /\
  fst (updateUserStatus "B" "away" Scenario.start) = Returned tt /\
  user_by_id "B" (db (snd (updateUserStatus "B" "away" Scenario.start)))
  = Some (mkUser "B" "bob" "bob@example.org" None "away") /\
  (forall v, v <> "B" ->
     user_by_id v (db (snd (updateUserStatus "B" "away" Scenario.start)))
     = user_by_id v (db Scenario.start)).
Proof.
  split; [reflexivity|]. split; [reflexivity|].
  apply (status_round_trip "B" "away" Scenario.start Scenario.bob); reflexivity.
Defined.

(** X10: the relay trusts the identity of an [auth] frame. For an identity
    with no user row the store's update matches nothing and still succeeds:
    the store is unchanged, the identity is registered on the socket, and
    the last frame written is [auth_success] on that socket. *)
Theorem auth_of_unknown_identity ws u w :
  sqlite_err w OpUpdateUserStatus = None ->
  user_by_id u (db w) = None ->
  db (on_message ws (Json (Auth u)) w) = db w /\
  JsMap.get u (connections (on_message ws (Json (Auth u)) w)) = Some ws /\
  exists delta,
    trace (on_message ws (Json (Auth u)) w)
    = trace w ++ delta ++ [Send ws auth_success].
Proof.
  intros Hok Hnone. rewrite (auth_run ws u w Hok). simpl. split; [|split].
  - unfold user_by_id in Hnone. rewrite (set_status_absent u "online" _ Hnone).
    now destruct (db w).
  - apply JsMapFacts.get_set_same.
  - exists (RegistrySet u ws :: StoreUpdateUserStatus u "online" true
            :: map (fun h => Send h (user_status u "online"))
                   (status_peers (JsMap.set u ws (connections w)) u (readyState w))).
    reflexivity.
Qed.

Lemma auth_of_unknown_identity_witness :
  sqlite_err (on_connection 3 Scenario.both_bound) OpUpdateUserStatus = None /\
  user_by_id "Z" (db (on_connection 3 Scenario.both_bound)) = None /\
  db (on_message 3 (Json (Auth "Z")) (on_connection 3 Scenario.both_bound))
  = db (on_connection 3 Scenario.both_bound) /\
  JsMap.get "Z" (connections
     (on_message 3 (Json (Auth "Z")) (on_connection 3 Scenario.both_bound))) = Some 3 /\
  exists delta,
    trace (on_message 3 (Json (Auth "Z")) (on_connection 3 Scenario.both_bound))
    = trace (on_connection 3 Scenario.both_bound) ++ delta ++ [Send 3 auth_success].
Proof.
  split; [reflexivity|]. split; [reflexivity|].
  apply (auth_of_unknown_identity 3 "Z" (on_connection 3 Scenario.both_bound));
    reflexivity.
Defined.

(** X11: [getConversationParticipants] returns no identity twice when the
    table holds no row twice, which its primary key
    (conversation_id, user_id) ensures. *)
Theorem participants_are_distinct conv d :
  NoDup (conversation_participants d) -> NoDup (participants_of conv d).
Proof.
  unfold participants_of. generalize (conversation_participants d) as rows.
  induction rows as [|[c p] rows IH]; simpl; intros Hnd; [constructor|].
  inversion Hnd as [|? ? Hnotin Hnd']; subst.
  destruct (c =? conv) eqn:E; simpl; auto.
  apply String.eqb_eq in E. subst c. constructor; auto.
  intros Hin. apply in_map_iff in Hin. destruct Hin as [[c' p'] [Hp Hin]].
  simpl in Hp. subst p'. apply filter_In in Hin. destruct Hin as [Hin Hc].
  simpl in Hc. apply String.eqb_eq in Hc. subst c'. contradiction.
Qed.

Lemma participants_are_distinct_witness :
  NoDup (conversation_participants Scenario.store) /\
  NoDup (participants_of "C" Scenario.store).
Proof.
  assert (H : NoDup (conversation_participants Scenario.store)).
  { constructor; [intros [H|[]]; discriminate|].
    constructor; [intros []|constructor]. }
  split; [exact H|].
  apply (participants_are_distinct "C" Scenario.store). exact H.
Defined.

(** X12: the [type] of a persisted message is never empty: it is the frame's
    [messageType] when that is a non-empty string and "text" when
    [messageType] is absent or empty. *)
Theorem persisted_type_defaults_to_text ws conv sender text mt w :
  sqlite_err w OpCreateMessage = None ->
  exists r,
    messages (db (on_message ws (Json (Message conv sender text mt)) w))
    = messages (db w) ++ [r] /\
    type r <> "" /\
    (forall t, mt = Some t -> t <> "" -> type r = t) /\
    (mt = None \/ mt = Some "" -> type r = "text").
Proof.
  intros Hok.
  pose proof (message_cases ws conv sender text mt w) as E. cbv zeta in E.
  rewrite E, Hok. clear E.
  exists (new_record conv sender text (messageType_or_text mt) w).
  split.
  - destruct (sqlite_err w OpGetConversationParticipants);
      [|destruct (sqlite_err w OpGetUserById);
        [|destruct (user_by_id sender (db w))]]; reflexivity.
  - simpl. unfold messageType_or_text, truthy. split; [|split].
    + destruct mt as [t|]; [|discriminate].
      destruct (t =? "") eqn:Et; simpl; [discriminate|].
      now apply String.eqb_neq in Et.
    + intros t -> Ht. apply String.eqb_neq in Ht. now rewrite Ht.
    + intros [->| ->]; reflexivity.
Qed.

Lemma persisted_type_defaults_to_text_witness :
  sqlite_err Scenario.both_bound OpCreateMessage = None /\
  exists r,
    messages (db (on_message 1 (Json (Message "C" "A" "cat.png" (Some "image")))
                             Scenario.both_bound))
    = messages (db Scenario.both_bound) ++ [r] /\
    type r <> "" /\
    (forall t, Some "image" = Some t -> t <> "" -> type r = t) /\
    (Some "image" = None \/ Some "image" = Some "" -> type r = "text").
Proof.
  split; [reflexivity|].
  apply (persisted_type_defaults_to_text 1 "C" "A" "cat.png" (Some "image")
           Scenario.both_bound).
  reflexivity.
Defined.

(** ** Account deletion *)

Lemma find_filter_other {A} (p q : A -> bool) l :
  (forall x, p x = true -> q x = true) ->
  find p (filter q l) = find p l.
Proof.
  intros H. induction l as [|a l IH]; simpl; auto.
  destruct (q a) eqn:Eq; simpl.
  - destruct (p a); auto.
  - destruct (p a) eqn:Ep; auto. apply H in Ep. congruence.
Qed.

Lemma find_filter_none {A} (p q : A -> bool) l :
  (forall x, p x = true -> q x = false) ->
  find p (filter q l) = None.
Proof.
  intros H. induction l as [|a l IH]; simpl; auto.
  destruct (q a) eqn:Eq; simpl; auto.
  destruct (p a) eqn:Ep; auto. apply H in Ep. congruence.
Qed.

Lemma participants_after_delete u conv d p :
  In p (participants_of conv (delete_participations_of u d)) <->
  In p (participants_of conv d) /\ p <> u.
Proof.
  unfold participants_of, delete_participations_of. simpl.
  rewrite !in_map_iff. split.
  - intros [[c q] [Hq Hin]]. simpl in Hq. subst q.
    apply filter_In in Hin. destruct Hin as [Hin Hc].
    apply filter_In in Hin. destruct Hin as [Hin Hu]. simpl in Hc, Hu.
    split.
    + exists (c, p). split; [reflexivity|]. apply filter_In. auto.
    + intros ->. now rewrite String.eqb_refl in Hu.
  - intros [[[c q] [Hq Hin]] Hne]. simpl in Hq. subst q.
    apply filter_In in Hin. destruct Hin as [Hin Hc].
    exists (c, p). split; [reflexivity|]. apply filter_In. split; [|assumption].
    apply filter_In. split; [assumption|]. simpl.
    apply String.eqb_neq in Hne. now rewrite Hne.
Qed.

Lemma deleted_user_has_no_row u n d d' :
  deleteUser u None d = (Returned n, d') -> user_by_id u d' = None.
Proof.
  unfold deleteUser. intros H. inversion H; subst.
  unfold user_by_id. simpl. apply find_filter_none.
  intros r Hr. now rewrite Hr.
Qed.

(** X13: when its last statement succeeds, [deleteUser] resolves and leaves
    no trace of the identity in the three tables: no user row, no message
    sent by it, no conversation it participates in; the rows, messages and
    participations of every other identity are as before. *)
Theorem deleteUser_removes_every_trace u d :
  exists n d',
    deleteUser u None d = (Returned n, d') /\
    user_by_id u d' = None /\
    (forall m, In m (messages d') <-> In m (messages d) /\ senderId m <> u) /\
    (forall conv p, In p (participants_of conv d') <->
                    In p (participants_of conv d) /\ p <> u) /\
    (forall v, v <> u -> user_by_id v d' = user_by_id v d).
Proof.
  unfold deleteUser. eexists. eexists. split; [reflexivity|].
  split; [|split; [|split]].
  - unfold user_by_id. simpl. apply find_filter_none.
    intros r Hr. now rewrite Hr.
  - intros m. simpl. rewrite filter_In. split.
    + intros [H1 H2]. split; [assumption|]. intros Heq.
      rewrite Heq, String.eqb_refl in H2. discriminate.
    + intros [H1 H2]. split; [assumption|].
      apply String.eqb_neq in H2. now rewrite H2.
  - intros conv p.
    apply (participants_after_delete u conv (delete_messages_of u d) p).
  - intros v Hv. unfold user_by_id. simpl. apply find_filter_other.
    intros r Hr. apply String.eqb_eq in Hr. rewrite Hr.
    apply String.eqb_neq in Hv. now rewrite Hv.
Qed.

(** X14: [deleteUser] is not atomic. When its last statement is rejected the
    promise rejects with that error and the user row is still there, but
    the user's messages and participations have already been deleted. *)
Theorem deleteUser_rejected_keeps_earlier_deletes u err d :
  exists d',
    deleteUser u (Some err) d = (Thrown err, d') /\
    users d' = users d /\
    (forall m, In m (messages d') -> senderId m <> u) /\
    (forall conv, ~ In u (participants_of conv d')).
Proof.
  unfold deleteUser. eexists. split; [reflexivity|]. split; [reflexivity|]. split.
  - intros m Hin. simpl in Hin. apply filter_In in Hin. destruct Hin as [_ H].
    intros Heq. rewrite Heq, String.eqb_refl in H. discriminate.
  - intros conv Hin.
    apply (participants_after_delete u conv (delete_messages_of u d) u) in Hin.
    destruct Hin as [_ Hne]. now apply Hne.
Qed.

(** X15: a deleted account can still be named as the sender of a
    [message] frame. After [deleteUser] succeeded for an identity, a
    [message] frame with that [senderId] (store healthy) is inserted into
    [messages], yet no socket is written a [new_message] frame. *)
Theorem message_from_deleted_sender ws conv u text mt w n d' :
  deleteUser u None (db w) = (Returned n, d') ->
  sqlite_err w OpCreateMessage = None ->
  sqlite_err w OpGetConversationParticipants = None ->
  sqlite_err w OpGetUserById = None ->
  exists r delta,
    trace (on_message ws (Json (Message conv u text mt)) (with_db d' w))
    = trace w ++ delta /\
    messages (db (on_message ws (Json (Message conv u text mt)) (with_db d' w)))
    = messages d' ++ [r] /\
    senderId r = u /\ content r = text /\
    (forall h f, In (h, f) (sends delta) -> is_new_message f = false).
Proof.
  intros Hdel Hc Hp Hu.
  pose proof (deleted_user_has_no_row u n (db w) d' Hdel) as Hnone.
  pose proof (message_cases ws conv u text mt (with_db d' w)) as E.
  cbv zeta in E. simpl sqlite_err in E. simpl db in E.
  rewrite Hc, Hp, Hu, Hnone in E. rewrite E. clear E.
  eexists. eexists. split; [reflexivity|]. simpl.
  split; [reflexivity|]. split; [reflexivity|]. split; [reflexivity|].
  intros h f Hin. simpl in Hin.
  match type of Hin with
  | context [if ?b then _ else _] => destruct b
  end; simpl in Hin; [|destruct Hin].
  destruct Hin as [Hin|[]]. inversion Hin; subst. reflexivity.
Qed.

Lemma message_from_deleted_sender_witness :
  deleteUser "A" None (db Scenario.both_bound)
  = (Returned 1, mkDb [mkUser "B" "bob" "bob@example.org" None "online"]
                      [("C", "B")] []) /\
  sqlite_err Scenario.both_bound OpCreateMessage = None /\
  sqlite_err Scenario.both_bound OpGetConversationParticipants = None /\
  sqlite_err Scenario.both_bound OpGetUserById = None /\
  exists r delta,
    trace (on_message 1 (Json (Message "C" "A" "hi" None))
             (with_db (mkDb [mkUser "B" "bob" "bob@example.org" None "online"]
                            [("C", "B")] []) Scenario.both_bound))
    = trace Scenario.both_bound ++ delta /\
    messages (db (on_message 1 (Json (Message "C" "A" "hi" None))
             (with_db (mkDb [mkUser "B" "bob" "bob@example.org" None "online"]
                            [("C", "B")] []) Scenario.both_bound)))
    = messages (mkDb [mkUser "B" "bob" "bob@example.org" None "online"]
                     [("C", "B")] []) ++ [r] /\
    senderId r = "A" /\ content r = "hi" /\
    (forall h f, In (h, f) (sends delta) -> is_new_message f = false).
Proof.
  split; [reflexivity|]. split; [reflexivity|]. split; [reflexivity|].
  split; [reflexivity|].
  apply (message_from_deleted_sender 1 "C" "A" "hi" None Scenario.both_bound 1
           (mkDb [mkUser "B" "bob" "bob@example.org" None "online"]
                 [("C", "B")] []));
    reflexivity.
Defined.

(** ** Whole runs *)

Lemma run_app inputs1 inputs2 w :
  run (inputs1 ++ inputs2) w = run inputs2 (run inputs1 w).
Proof. unfold run. apply fold_left_app. Qed.

Lemma run_ind (P : World -> Prop) :
  (forall i w, P w -> P (step i w)) ->
  forall inputs w, P w -> P (run inputs w).
Proof.
  intros Hstep inputs. induction inputs as [|i inputs IH]; intros w Hw.
  - exact Hw.
  - simpl. apply IH. now apply Hstep.
Qed.

Lemma In_get k v m : NoDup (JsMap.keys m) -> In (k, v) m -> JsMap.get k m = Some v.
Proof.
  unfold JsMap.keys. induction m as [|[k' v'] m IH]; simpl; intros Hnd Hin.
  - destruct Hin.
  - inversion Hnd as [|? ? Hnotin Hnd']; subst.
    destruct Hin as [Hin|Hin].
    + inversion Hin; subst. now rewrite String.eqb_refl.
    + destruct (k' =? k) eqn:E; [|auto].
      apply String.eqb_eq in E. subst k'. exfalso. apply Hnotin.
      apply in_map_iff. now exists (k, v).
Qed.

Lemma step_keeps_keys_distinct i w :
  NoDup (JsMap.keys (connections w)) -> NoDup (JsMap.keys (connections (step i w))).
Proof.
  intros Hnd. destruct i as [ws|ws data|ws|ws msg]; simpl.
  - exact Hnd.
  - destruct (on_message_footprint ws data w) as (_ & -> & _).
    destruct data as [e| |f]; simpl; auto.
    destruct f; simpl; auto. now apply JsMapFacts.NoDup_keys_set.
  - unfold transport_close. rewrite on_close_run. simpl.
    destruct (userId w ws) as [u|]; simpl; auto.
    destruct (truthy u); simpl; auto.
    destruct (sqlite_err w OpUpdateUserStatus); simpl;
      now apply JsMapFacts.NoDup_keys_delete.
  - exact Hnd.
Qed.

(** X16: whatever the server reacts to, in whatever order, the registry never
    holds two entries for one identity, and a lookup returns the socket of
    the identity's entry. *)
Theorem registry_holds_one_entry_per_identity inputs w :
  NoDup (JsMap.keys (connections w)) ->
  NoDup (JsMap.keys (connections (run inputs w))) /\
  (forall u h, In (u, h) (connections (run inputs w)) ->
               JsMap.get u (connections (run inputs w)) = Some h).
Proof.
  intros Hnd.
  assert (H : NoDup (JsMap.keys (connections (run inputs w)))).
  { apply (run_ind (fun w' => NoDup (JsMap.keys (connections w')))); auto.
    intros i w' Hw'. now apply step_keeps_keys_distinct. }
  split; [exact H|]. intros u h Hin. now apply In_get.
Qed.

Lemma registry_holds_one_entry_per_identity_witness :
  NoDup (JsMap.keys (connections Scenario.start)) /\
  NoDup (JsMap.keys (connections
           (run [Connection 1; Received 1 (Json (Auth "A"));
                 Connection 2; Received 2 (Json (Auth "A")); Closed 1]
                Scenario.start))) /\
  (forall u h,
      In (u, h) (connections
           (run [Connection 1; Received 1 (Json (Auth "A"));
                 Connection 2; Received 2 (Json (Auth "A")); Closed 1]
                Scenario.start)) ->
      JsMap.get u (connections
           (run [Connection 1; Received 1 (Json (Auth "A"));
                 Connection 2; Received 2 (Json (Auth "A")); Closed 1]
                Scenario.start)) = Some h).
Proof.
  split; [constructor|].
  apply (registry_holds_one_entry_per_identity
           [Connection 1; Received 1 (Json (Auth "A"));
            Connection 2; Received 2 (Json (Auth "A")); Closed 1]
           Scenario.start).
  constructor.
Defined.

Lemma store_footprint_refl d : store_footprint d d.
Proof. repeat split. exists []. now rewrite app_nil_r. Qed.

Lemma store_footprint_trans d1 d2 d3 :
  store_footprint d1 d2 -> store_footprint d2 d3 -> store_footprint d1 d3.
Proof.
  intros (Hp & Hu & ms & Hm) (Hp' & Hu' & ms' & Hm').
  repeat split; try congruence.
  exists (ms ++ ms'). rewrite Hm', Hm. now rewrite app_assoc.
Qed.

Lemma but_status_set_status u s r : but_status (set_status u s r) = but_status r.
Proof. unfold set_status. now destruct (user_id r =? u). Qed.

Lemma store_footprint_status u s d :
  store_footprint d (mkDb (map (set_status u s) (users d))
                          (conversation_participants d) (messages d)).
Proof.
  repeat split; simpl.
  - rewrite map_map. apply map_ext. intros r. apply but_status_set_status.
  - exists []. now rewrite app_nil_r.
Qed.

Lemma store_step_footprint data d d' : store_step data d d' -> store_footprint d d'.
Proof.
  destruct data as [e| |f]; simpl; try (intros ->; apply store_footprint_refl).
  destruct f; simpl; try (intros ->; apply store_footprint_refl).
  - intros [->| ->]; [apply store_footprint_refl|apply store_footprint_status].
  - intros [->|[r [-> _]]]; [apply store_footprint_refl|].
    repeat split. now exists [r].
Qed.

Lemma step_store_footprint i w : store_footprint (db w) (db (step i w)).
Proof.
  destruct i as [ws|ws data|ws|ws msg]; simpl; try apply store_footprint_refl.
  - apply (store_step_footprint data). apply (on_message_footprint ws data w).
  - unfold transport_close. rewrite on_close_run. simpl.
    destruct (userId w ws) as [u|]; simpl; try apply store_footprint_refl.
    destruct (truthy u); simpl; try apply store_footprint_refl.
    destruct (sqlite_err w OpUpdateUserStatus); simpl;
      [apply store_footprint_refl|apply store_footprint_status].
Qed.

(** X17: over any run the relay only appends to [messages] and only sets the
    status column of [users]: it never edits or deletes a message, never
    changes who participates in a conversation, and the user rows stay the
    same rows in the same order with their id, username, email and avatar
    as they were. *)
Theorem relay_store_footprint inputs w :
  store_footprint (db w) (db (run inputs w)).
Proof.
  revert w. induction inputs as [|i inputs IH]; intros w.
  - apply store_footprint_refl.
  - simpl. eapply store_footprint_trans; [apply step_store_footprint|apply IH].
Qed.

Lemma In_Send_sends h f t : In (Send h f) t <-> In (h, f) (sends t).
Proof.
  induction t as [|e t IH]; simpl; [tauto|].
  destruct e; simpl; rewrite <- IH; split;
    try (intros [H|H]; [discriminate|assumption]); try (intros H; now right).
  - intros [H|H]; [inversion H; subst; now left|now right].
  - intros [H|H]; [inversion H; subst; now left|now right].
Qed.

Lemma step_keeps_fanout_recorded i w :
  fanout_is_recorded w -> fanout_is_recorded (step i w).
Proof.
  unfold fanout_is_recorded. intros Hw.
  destruct i as [ws|ws data|ws|ws msg]; simpl.
  - exact Hw.
  - destruct (on_message_normal ws data w)
      as (delta & w0 & -> & Ht & _ & _ & _ & Hs & Hsound).
    simpl. rewrite Ht. intros h r name Hin.
    apply in_app_or in Hin. destruct Hin as [Hin|Hin].
    + apply store_step_footprint in Hs. destruct Hs as (_ & _ & ms & ->).
      apply in_or_app. left. eauto.
    + apply In_Send_sends in Hin. rewrite Forall_forall in Hsound.
      destruct (Hsound _ Hin) as [_ Hrec]. exact Hrec.
  - unfold transport_close. rewrite on_close_run. simpl.
    destruct (userId w ws) as [u|]; simpl; auto.
    destruct (truthy u); simpl; auto.
    destruct (sqlite_err w OpUpdateUserStatus); simpl;
      intros h r name Hin; apply in_app_or in Hin;
      (destruct Hin as [Hin|Hin]; [eauto|exfalso]).
    + simpl in Hin. destruct Hin as [Hin|[Hin|[]]]; discriminate.
    + simpl in Hin. destruct Hin as [Hin|[Hin|Hin]]; try discriminate.
      apply in_map_iff in Hin. destruct Hin as [h' [Heq _]]. discriminate.
  - intros h r name Hin. apply in_app_or in Hin.
    destruct Hin as [Hin|[Hin|[]]]; [eauto|discriminate].
Qed.

(** X18: over any run from a relay nobody has connected to yet, every
    [new_message] frame ever written to a socket carries a record that is
    in [messages] at the end of the run. *)
Theorem fanned_out_messages_are_stored d errs e inputs h r name :
  In (Send h (new_message r name)) (trace (run inputs (empty_world d errs e))) ->
  In r (messages (db (run inputs (empty_world d errs e)))).
Proof.
  revert h r name.
  apply (run_ind fanout_is_recorded).
  - intros i w. apply step_keeps_fanout_recorded.
  - intros h r name [].
Qed.

Lemma fanned_out_messages_are_stored_witness :
  In (Send 2 (new_message Scenario.hi_record "alice"))
     (trace (run [Connection 1; Received 1 (Json (Auth "A"));
                  Connection 2; Received 2 (Json (Auth "B"));
                  Received 1 (Json Scenario.hi); Closed 1]
                 (empty_world Scenario.store Scenario.healthy Scenario.ids))) /\
  In Scenario.hi_record
     (messages (db (run [Connection 1; Received 1 (Json (Auth "A"));
                         Connection 2; Received 2 (Json (Auth "B"));
                         Received 1 (Json Scenario.hi); Closed 1]
                        (empty_world Scenario.store Scenario.healthy Scenario.ids)))).
Proof.
  assert (H : In (Send 2 (new_message Scenario.hi_record "alice"))
     (trace (run [Connection 1; Received 1 (Json (Auth "A"));
                  Connection 2; Received 2 (Json (Auth "B"));
                  Received 1 (Json Scenario.hi); Closed 1]
                 (empty_world Scenario.store Scenario.healthy Scenario.ids)))).
  { vm_compute. do 11 right. left. reflexivity. }
  split; [exact H|].
  apply (fanned_out_messages_are_stored Scenario.store Scenario.healthy Scenario.ids
           [Connection 1; Received 1 (Json (Auth "A"));
            Connection 2; Received 2 (Json (Auth "B"));
            Received 1 (Json Scenario.hi); Closed 1]
           2 Scenario.hi_record "alice" H).
Defined.

(** ** Registration and login *)

Lemma NoDup_snoc {A} (l : list A) x : NoDup l -> ~ In x l -> NoDup (l ++ [x]).
Proof.
  intros Hnd Hx. induction Hnd as [|a l Ha Hnd IH]; simpl.
  - constructor; [intros []|constructor].
  - constructor.
    + intros Hin. apply in_app_or in Hin. destruct Hin as [Hin|[Heq|[]]].
      * contradiction.
      * subst. apply Hx. now left.
    + apply IH. intros Hin. apply Hx. now right.
Qed.

Lemma find_snoc_fresh {A} (p : A -> bool) l x :
  find p l = None -> p x = true -> find p (l ++ [x]) = Some x.
Proof.
  induction l as [|a l IH]; simpl; intros Hnone Hx.
  - now rewrite Hx.
  - destruct (p a); [discriminate|auto].
Qed.

Module AccountsFacts.
Import Accounts.

Lemma missing_false field :
  missing field = false -> exists s, field = Some s /\ s <> "".
Proof.
  destruct field as [s|]; simpl; [|discriminate].
  intros H. exists s. split; [reflexivity|]. now apply String.eqb_neq.
Qed.

Lemma violates_constraint_false id username email t :
  violates_constraint id username email t = false ->
  ~ In id (map acc_id t) /\ ~ In username (map acc_username t) /\
  ~ In email (map acc_email t).
Proof.
  unfold violates_constraint. induction t as [|a t IH]; simpl; [tauto|].
  intros H. apply orb_false_iff in H. destruct H as [Ha Ht].
  apply orb_false_iff in Ha. destruct Ha as [Ha He].
  apply orb_false_iff in Ha. destruct Ha as [Hi Hu].
  apply String.eqb_neq in Hi, Hu, He.
  destruct (IH Ht) as (H1 & H2 & H3).
  repeat split; intros [Heq|Hin]; auto.
Qed.

(** The success branch of [register], spelled out. *)
Lemma register_success hashSync faults uuid salt now username email password t
      i u e t' :
  register hashSync faults uuid salt now username email password t
  = (Success i u e, t') ->
  exists p,
    username = Some u /\ email = Some e /\ password = Some p /\
    u <> "" /\ e <> "" /\ p <> "" /\ i = uuid /\
    getUserByEmail e t = None /\
    violates_constraint uuid u e t = false /\
    t' = t ++ [mkAccount uuid u None e (hashSync p salt) None None "offline" now].
Proof.
  unfold register.
  destruct (missing username) eqn:Mu; [discriminate|].
  destruct (missing email) eqn:Me; [discriminate|].
  destruct (missing password) eqn:Mp; [discriminate|]. simpl.
  destruct (missing_false _ Mu) as [u0 [-> Hu]].
  destruct (missing_false _ Me) as [e0 [-> He]].
  destruct (missing_false _ Mp) as [p0 [-> Hp]].
  destruct (faults OpGetUserByEmail); [discriminate|].
  destruct (getUserByEmail e0 t) eqn:Hg; [discriminate|].
  unfold createUser. destruct (faults OpCreateUser); [discriminate|].
  destruct (violates_constraint uuid u0 e0 t) eqn:Hv; [discriminate|].
  intros H. inversion H; subst. exists p0. repeat split; auto.
Qed.

Section Bcrypt.

Variable hashSync : string -> string -> string.
Variable compareSync : string -> string -> bool.
Hypothesis bcrypt_accepts_own_hash :
  forall password salt, compareSync password (hashSync password salt) = true.

(** X19: register, then log in. After /api/register answered with success,
    /api/login with the same email and password (and a store that answers
    the lookup) answers with success and the same id, username and email. *)
Theorem register_then_login faults faults' uuid salt now username email password
        t i u e t' :
  register hashSync faults uuid salt now username email password t
  = (Success i u e, t') ->
  faults' OpGetUserByEmail = None ->
  login compareSync faults' email password t' = Success i u e.
Proof.
  intros Hreg Hok.
  destruct (register_success _ _ _ _ _ _ _ _ _ _ _ _ _ Hreg)
    as (p & -> & -> & -> & Hu & He & Hp & -> & Hnone & Hv & ->).
  unfold login. simpl.
  apply String.eqb_neq in He, Hp. rewrite He, Hp. simpl. rewrite Hok.
  unfold getUserByEmail in *.
  rewrite (find_snoc_fresh _ t _ Hnone) by (simpl; apply String.eqb_refl).
  simpl. now rewrite bcrypt_accepts_own_hash.
Qed.

End Bcrypt.

Lemma toy_bcrypt password salt :
  toy_compare password (toy_hash password salt) = true.
Proof. unfold toy_compare, toy_hash. apply String.eqb_refl. Qed.

Lemma register_then_login_witness :
  (forall password salt, toy_compare password (toy_hash password salt) = true) /\
  register toy_hash no_faults "id-dave" "salt" "2024-01-02 00:00:00"
           (Some "dave") (Some "dave@example.org") (Some "hunter2") [carol]
  = (Success "id-dave" "dave" "dave@example.org",
     [carol;
      mkAccount "id-dave" "dave" None "dave@example.org" "hunter2" None None
                "offline" "2024-01-02 00:00:00"]) /\
  no_faults OpGetUserByEmail = None /\
  login toy_compare no_faults (Some "dave@example.org") (Some "hunter2")
        [carol;
         mkAccount "id-dave" "dave" None "dave@example.org" "hunter2" None None
                   "offline" "2024-01-02 00:00:00"]
  = Success "id-dave" "dave" "dave@example.org".
Proof.
  split; [exact toy_bcrypt|]. split; [reflexivity|]. split; [reflexivity|].
  apply (register_then_login toy_hash toy_compare toy_bcrypt no_faults no_faults
           "id-dave" "salt" "2024-01-02 00:00:00"
           (Some "dave") (Some "dave@example.org") (Some "hunter2") [carol]);
    reflexivity.
Defined.

(** X20: /api/register keeps the table's constraints: if ids, usernames and
    emails are pairwise distinct before a request, they are after it,
    whatever the request and its outcome. *)
Theorem register_keeps_constraints hashSync faults uuid salt now
        username email password t :
  well_formed t ->
  well_formed (snd (register hashSync faults uuid salt now username email password t)).
Proof.
  intros Hwf.
  destruct (register hashSync faults uuid salt now username email password t)
    as [[i u e|code msg] t'] eqn:Hreg; simpl.
  - destruct (register_success _ _ _ _ _ _ _ _ _ _ _ _ _ Hreg)
      as (p & _ & _ & _ & _ & _ & _ & -> & _ & Hv & ->).
    apply violates_constraint_false in Hv. destruct Hv as (Hi & Hu & He).
    destruct Hwf as (Wi & Wu & We). unfold well_formed.
    rewrite !map_app. simpl. repeat split; now apply NoDup_snoc.
  - assert (t' = t); [|now subst].
    revert Hreg. unfold register.
    destruct (missing username || missing email || missing password);
      [intros H; now inversion H|].
    destruct username, email, password; try (intros H; now inversion H).
    destruct (faults OpGetUserByEmail); [intros H; now inversion H|].
    destruct (getUserByEmail s0 t); [intros H; now inversion H|].
    unfold createUser. destruct (faults OpCreateUser); [intros H; now inversion H|].
    destruct (violates_constraint uuid s s0 t); intros H; now inversion H.
Qed.

Lemma register_keeps_constraints_witness :
  well_formed [carol] /\
  well_formed (snd (register toy_hash no_faults "id-dave" "salt"
                             "2024-01-02 00:00:00"
                             (Some "dave") (Some "dave@example.org")
                             (Some "hunter2") [carol])).
Proof.
  assert (H : well_formed [carol]).
  { repeat split; (constructor; [intros []|constructor]). }
  split; [exact H|].
  apply (register_keeps_constraints toy_hash no_faults "id-dave" "salt"
           "2024-01-02 00:00:00" (Some "dave") (Some "dave@example.org")
           (Some "hunter2") [carol] H).
Defined.

(** X21: a username that is taken is not reported as such. With all fields
    present, an email that is free and a username some account already has,
    /api/register answers 500 "Registration failed" (the UNIQUE constraint
    rejects the insert) and the table is unchanged. *)
Theorem taken_username_is_a_server_error hashSync faults uuid salt now u e p t :
  u <> "" -> e <> "" -> p <> "" ->
  faults OpGetUserByEmail = None ->
  getUserByEmail e t = None ->
  In u (map acc_username t) ->
  register hashSync faults uuid salt now (Some u) (Some e) (Some p) t
  = (Failure 500 "Registration failed", t).
Proof.
  intros Hu He Hp Hok Hfree Htaken. unfold register. simpl.
  apply String.eqb_neq in Hu, He, Hp. rewrite Hu, He, Hp. simpl.
  rewrite Hok, Hfree. unfold createUser.
  destruct (faults OpCreateUser); [reflexivity|].
  assert (Hv : violates_constraint uuid u e t = true).
  { unfold violates_constraint. apply existsb_exists.
    apply in_map_iff in Htaken. destruct Htaken as [a [Ha Hin]].
    exists a. split; [assumption|]. rewrite Ha, String.eqb_refl.
    now rewrite orb_true_r. }
  now rewrite Hv.
Qed.

Lemma taken_username_is_a_server_error_witness :
  "carol" <> "" /\ "carol2@example.org" <> "" /\ "pw" <> "" /\
  no_faults OpGetUserByEmail = None /\
  getUserByEmail "carol2@example.org" [carol] = None /\
  In "carol" (map acc_username [carol]) /\
  register toy_hash no_faults "id-new" "salt" "2024-01-02 00:00:00"
           (Some "carol") (Some "carol2@example.org") (Some "pw") [carol]
  = (Failure 500 "Registration failed", [carol]).
Proof.
  split; [discriminate|]. split; [discriminate|]. split; [discriminate|].
  split; [reflexivity|]. split; [reflexivity|]. split; [now left|].
  apply (taken_username_is_a_server_error toy_hash no_faults "id-new" "salt"
           "2024-01-02 00:00:00" "carol" "carol2@example.org" "pw" [carol]);
    try discriminate; try reflexivity.
  now left.
Defined.

(** X22: /api/login answers with success only for an account that is in the
    table under the given email and whose stored hash [compareSync] accepts
    for the given, non-empty password; the answer carries that account's id,
    username and email. *)
Theorem login_is_sound compareSync faults email password t i u e :
  login compareSync faults email password t = Success i u e ->
  exists a p,
    In a t /\ email = Some (acc_email a) /\ password = Some p /\ p <> "" /\
    compareSync p (acc_password a) = true /\
    i = acc_id a /\ u = acc_username a /\ e = acc_email a.
Proof.
  unfold login.
  destruct (missing email) eqn:Me; [discriminate|].
  destruct (missing password) eqn:Mp; [discriminate|]. simpl.
  destruct (missing_false _ Me) as [e0 [-> He]].
  destruct (missing_false _ Mp) as [p0 [-> Hp]].
  destruct (faults OpGetUserByEmail); [discriminate|].
  destruct (getUserByEmail e0 t) as [a|] eqn:Hg; [|discriminate].
  destruct (compareSync p0 (acc_password a)) eqn:Hc; [|discriminate].
  intros H. inversion H; subst.
  unfold getUserByEmail in Hg. apply find_some in Hg. destruct Hg as [Hin Heq].
  apply String.eqb_eq in Heq.
  exists a, p0. rewrite Heq. repeat split; auto.
Qed.

Lemma login_is_sound_witness :
  login toy_compare no_faults (Some "carol@example.org") (Some "carol-secret") [carol]
  = Success "id-carol" "carol" "carol@example.org" /\
  exists a p,
    In a [carol] /\ Some "carol@example.org" = Some (acc_email a) /\
    Some "carol-secret" = Some p /\ p <> "" /\
    toy_compare p (acc_password a) = true /\
    "id-carol" = acc_id a /\ "carol" = acc_username a /\
    "carol@example.org" = acc_email a.
Proof.
  split; [reflexivity|].
  apply (login_is_sound toy_compare no_faults (Some "carol@example.org")
           (Some "carol-secret") [carol] "id-carol" "carol" "carol@example.org").
  reflexivity.
Defined.

End AccountsFacts.

(** ** Channels *)

Module ChannelsFacts.
Import Channels.

Lemma is_member_false c u s :
  is_member c u s = false ->
  ~ In (c, u) (map (fun m => (m_channel_id m, m_user_id m)) (channel_members s)).
Proof.
  unfold is_member. intros H Hin. apply in_map_iff in Hin.
  destruct Hin as [m [Hm Hin]]. inversion Hm; subst.
  assert (Ht : existsb (fun m0 => (m_channel_id m0 =? m_channel_id m)
                                  && (m_user_id m0 =? m_user_id m))
                       (channel_members s) = true).
  { apply existsb_exists. exists m. split; [assumption|].
    now rewrite !String.eqb_refl. }
  congruence.
Qed.

Lemma has_admin_row_is_member c u s :
  has_admin_row c u s = true -> is_member c u s = true.
Proof.
  unfold has_admin_row, is_member. rewrite !existsb_exists.
  intros [m [Hin H]]. exists m. split; [assumption|].
  apply andb_prop in H. tauto.
Qed.

Lemma has_admin_row_app c u chs ms ms' msgs :
  has_admin_row c u (mkStore chs (ms ++ ms') msgs)
  = has_admin_row c u (mkStore chs ms msgs)
    || has_admin_row c u (mkStore chs ms' msgs).
Proof. unfold has_admin_row. simpl. apply existsb_app. Qed.

(** X23: the creator of a channel can post in it. After [createChannel]
    resolved for an id that had no membership rows and the insert of the
    owner went through, a post by the owner with a content is accepted: the
    message is appended with that channel, sender and content, and its type
    is the given one, or "text" when the request has none. *)
Theorem owner_can_post faults faults' uuid now n d o s r s' uuid' now' text ty :
  createChannel faults uuid now (Some n) d (Some o) s = (Returned r, s') ->
  faults OpInsertOwner = None ->
  is_member uuid o s = false ->
  faults' OpIsChannelAdmin = None -> faults' OpInsertMessage = None ->
  existsb (fun m => cm_id m =? uuid') (channel_messages s') = false ->
  exists m,
    post_channel_message faults' uuid' now' uuid (Some o) (Some text) ty s'
    = (MessagePosted m,
       mkStore (channels s') (channel_members s') (channel_messages s' ++ [m])) /\
    cm_channel_id m = uuid /\ cm_sender_id m = o /\ cm_content m = text /\
    cm_type m = match ty with Some t => t | None => "text" end.
Proof.
  intros Hcreate Howner Hfresh Hadm Hins Hid.
  assert (Hrow : has_admin_row uuid o s' = true).
  { revert Hcreate. unfold createChannel.
    destruct (faults OpInsertChannel); [discriminate|].
    destruct (existsb (fun c => ch_id c =? uuid) (channels s)); [discriminate|].
    rewrite Howner.
    change (is_member uuid o
              (mkStore (channels s ++ [mkChannel uuid n d None o now])
                       (channel_members s) (channel_messages s)))
      with (is_member uuid o s).
    rewrite Hfresh. intros H. inversion H; subst. simpl.
    rewrite has_admin_row_app. apply orb_true_iff. right.
    unfold has_admin_row. simpl. now rewrite !String.eqb_refl. }
  unfold post_channel_message, isChannelAdmin. rewrite Hadm, Hrow.
  unfold createChannelMessage. rewrite Hins, Hid.
  eexists. split; [reflexivity|]. repeat split.
Qed.

Lemma owner_can_post_witness :
  createChannel no_faults "ch-1" "2024-01-01 00:00:00" (Some "news") None
                (Some "A") empty
  = (Returned (ChannelCreated "ch-1" "news" None "A"),
     mkStore [mkChannel "ch-1" "news" None None "A" "2024-01-01 00:00:00"]
             [mkMember "ch-1" "A" "admin" "2024-01-01 00:00:00"] []) /\
  no_faults OpInsertOwner = None /\
  is_member "ch-1" "A" empty = false /\
  no_faults OpIsChannelAdmin = None /\ no_faults OpInsertMessage = None /\
  existsb (fun m => cm_id m =? "msg-1")
          (channel_messages
             (mkStore [mkChannel "ch-1" "news" None None "A" "2024-01-01 00:00:00"]
                      [mkMember "ch-1" "A" "admin" "2024-01-01 00:00:00"] []))
  = false /\
  exists m,
    post_channel_message no_faults "msg-1" "2024-01-01 00:01:00" "ch-1"
      (Some "A") (Some "hello") None
      (mkStore [mkChannel "ch-1" "news" None None "A" "2024-01-01 00:00:00"]
               [mkMember "ch-1" "A" "admin" "2024-01-01 00:00:00"] [])
    = (MessagePosted m,
       mkStore [mkChannel "ch-1" "news" None None "A" "2024-01-01 00:00:00"]
               [mkMember "ch-1" "A" "admin" "2024-01-01 00:00:00"] ([] ++ [m])) /\
    cm_channel_id m = "ch-1" /\ cm_sender_id m = "A" /\ cm_content m = "hello" /\
    cm_type m = "text".
Proof.
  split; [reflexivity|]. split; [reflexivity|]. split; [reflexivity|].
  split; [reflexivity|]. split; [reflexivity|]. split; [reflexivity|].
  apply (owner_can_post no_faults no_faults "ch-1" "2024-01-01 00:00:00" "news" None
           "A" empty (ChannelCreated "ch-1" "news" None "A")
           (mkStore [mkChannel "ch-1" "news" None None "A" "2024-01-01 00:00:00"]
                    [mkMember "ch-1" "A" "admin" "2024-01-01 00:00:00"] [])
           "msg-1" "2024-01-01 00:01:00" "hello" None);
    reflexivity.
Defined.

(** X24: only admins post in channels. Whatever the request, the route
    either appends exactly the posted message, and then the sender has an
    admin or owner row for that channel, or answers with a failure and
    leaves the three tables as they were. *)
Theorem only_admins_post faults uuid now channelId senderId content ty s :
  match post_channel_message faults uuid now channelId senderId content ty s with
  | (MessagePosted m, s') =>
      exists sender,
        senderId = Some sender /\ has_admin_row channelId sender s = true /\
        cm_channel_id m = channelId /\ cm_sender_id m = sender /\
        s' = mkStore (channels s) (channel_members s) (channel_messages s ++ [m])
  | (Failure _ _, s') => s' = s
  | (ChannelCreated _ _ _ _, _) => False
  end.
Proof.
  unfold post_channel_message, isChannelAdmin.
  destruct (faults OpIsChannelAdmin); [reflexivity|].
  destruct senderId as [sender|]; [|reflexivity].
  destruct (has_admin_row channelId sender s) eqn:Hrow; [|reflexivity].
  unfold createChannelMessage.
  destruct (faults OpInsertMessage); [reflexivity|].
  destruct content as [text|]; [|reflexivity].
  destruct (existsb (fun m => cm_id m =? uuid) (channel_messages s)); [reflexivity|].
  exists sender. repeat split; auto.
Qed.

(** X25: joining a channel makes the user a member and changes nobody's
    rights: after [joinChannel] resolved the user has a membership row, the
    users with an admin or owner row are exactly those who had one, and a
    user who already had a row keeps it as it was. *)
Theorem join_changes_no_rights faults now c u s s' :
  joinChannel faults now c u s = (Returned tt, s') ->
  is_member c u s' = true /\
  (forall c' u', has_admin_row c' u' s' = has_admin_row c' u' s) /\
  (is_member c u s = true -> s' = s).
Proof.
  unfold joinChannel. destruct (faults OpJoinChannel); [discriminate|].
  destruct (is_member c u s) eqn:Hm; intros H; inversion H; subst.
  - repeat split; auto.
  - split; [|split; [|discriminate]].
    + unfold is_member. simpl. rewrite existsb_app. simpl.
      rewrite !String.eqb_refl. simpl. apply orb_true_r.
    + intros c' u'. destruct s as [chs ms msgs]. simpl.
      rewrite has_admin_row_app. unfold has_admin_row at 2. simpl.
      rewrite !andb_false_r. simpl. apply orb_false_r.
Qed.

Lemma join_changes_no_rights_witness :
  joinChannel no_faults "2024-01-01 00:02:00" "ch-1" "B"
    (mkStore [mkChannel "ch-1" "news" None None "A" "2024-01-01 00:00:00"]
             [mkMember "ch-1" "A" "admin" "2024-01-01 00:00:00"] [])
  = (Returned tt,
     mkStore [mkChannel "ch-1" "news" None None "A" "2024-01-01 00:00:00"]
             [mkMember "ch-1" "A" "admin" "2024-01-01 00:00:00";
              mkMember "ch-1" "B" "member" "2024-01-01 00:02:00"] []) /\
  is_member "ch-1" "B"
    (mkStore [mkChannel "ch-1" "news" None None "A" "2024-01-01 00:00:00"]
             [mkMember "ch-1" "A" "admin" "2024-01-01 00:00:00";
              mkMember "ch-1" "B" "member" "2024-01-01 00:02:00"] []) = true /\
  (forall c' u',
      has_admin_row c' u'
        (mkStore [mkChannel "ch-1" "news" None None "A" "2024-01-01 00:00:00"]
                 [mkMember "ch-1" "A" "admin" "2024-01-01 00:00:00";
                  mkMember "ch-1" "B" "member" "2024-01-01 00:02:00"] [])
      = has_admin_row c' u'
          (mkStore [mkChannel "ch-1" "news" None None "A" "2024-01-01 00:00:00"]
                   [mkMember "ch-1" "A" "admin" "2024-01-01 00:00:00"] [])) /\
  (is_member "ch-1" "B"
     (mkStore [mkChannel "ch-1" "news" None None "A" "2024-01-01 00:00:00"]
              [mkMember "ch-1" "A" "admin" "2024-01-01 00:00:00"] []) = true ->
   mkStore [mkChannel "ch-1" "news" None None "A" "2024-01-01 00:00:00"]
           [mkMember "ch-1" "A" "admin" "2024-01-01 00:00:00";
            mkMember "ch-1" "B" "member" "2024-01-01 00:02:00"] []
   = mkStore [mkChannel "ch-1" "news" None None "A" "2024-01-01 00:00:00"]
             [mkMember "ch-1" "A" "admin" "2024-01-01 00:00:00"] []).
Proof.
  split; [reflexivity|].
  apply (join_changes_no_rights no_faults "2024-01-01 00:02:00" "ch-1" "B"
           (mkStore [mkChannel "ch-1" "news" None None "A" "2024-01-01 00:00:00"]
                    [mkMember "ch-1" "A" "admin" "2024-01-01 00:00:00"] [])).
  reflexivity.
Defined.

(** X26: the helpers keep the primary key of [channel_members]: if no
    (channel, user) pair has two rows before [createChannel] or
    [joinChannel], none has after, whatever the outcome. *)
Theorem membership_stays_keyed faults uuid now name d owner c u s :
  members_keyed s ->
  members_keyed (snd (createChannel faults uuid now name d owner s)) /\
  members_keyed (snd (joinChannel faults now c u s)).
Proof.
  intros Hk. unfold members_keyed in *. split.
  - unfold createChannel.
    destruct (faults OpInsertChannel); [exact Hk|].
    destruct name as [n|]; [|exact Hk]. destruct owner as [o|]; [|exact Hk].
    destruct (existsb (fun ch => ch_id ch =? uuid) (channels s)); [exact Hk|].
    simpl. destruct (faults OpInsertOwner); [exact Hk|].
    change (is_member uuid o
              (mkStore (channels s ++ [mkChannel uuid n d None o now])
                       (channel_members s) (channel_messages s)))
      with (is_member uuid o s).
    destruct (is_member uuid o s) eqn:Hm; [exact Hk|].
    simpl. rewrite map_app. simpl.
    apply NoDup_snoc; [exact Hk|now apply is_member_false].
  - unfold joinChannel. destruct (faults OpJoinChannel); [exact Hk|].
    destruct (is_member c u s) eqn:Hm; [exact Hk|].
    simpl. rewrite map_app. simpl.
    apply NoDup_snoc; [exact Hk|now apply is_member_false].
Qed.

Lemma membership_stays_keyed_witness :
  members_keyed empty /\
  members_keyed (snd (createChannel no_faults "ch-1" "2024-01-01 00:00:00"
                                    (Some "news") None (Some "A") empty)) /\
  members_keyed (snd (joinChannel no_faults "2024-01-01 00:02:00" "ch-1" "B" empty)).
Proof.
  split; [constructor|].
  apply (membership_stays_keyed no_faults "ch-1" "2024-01-01 00:00:00"
           (Some "news") None (Some "A") "ch-1" "B" empty).
  constructor.
Defined.

End ChannelsFacts.
